(** * Relation lifecycle of the [state] package: destruction, endpoint
    reference counts and deferred settings cleanup.

    The development embeds [state/relation.go] (relation documents,
    [Refresh], [Destroy], [destroyOps], [removeOps], the two endpoint
    operation builders and the relation settings cleanup change) as Rocq
    functions over an explicit database value, and proves the properties
    the specification states about them. *)

From Stdlib Require Import Ascii String.
From stdpp Require Import gmap strings list fin_maps pretty.

Local Open Scope Z_scope.
Local Open Scope string_scope.
Local Open Scope list_scope.

(** ** Entities *)

(** [type Life int8] with its three values. *)
Inductive Life := Alive | Dying | Dead.

#[global] Instance Life_eq_dec : EqDecision Life.
Proof. solve_decision. Defined.

(** [charm.RelationRole] and [charm.RelationScope]. *)
Inductive RelationRole := RoleProvider | RoleRequirer | RolePeer.

#[global] Instance RelationRole_eq_dec : EqDecision RelationRole.
Proof. solve_decision. Defined.

Inductive RelationScope := ScopeGlobal | ScopeContainer.

(** [Endpoint]: an application name together with the embedded
    [charm.Relation] fields the relation code reads. *)
Record Endpoint := mkEndpoint {
  ApplicationName : string;
  RelationName : string;
  Role : RelationRole;
  Interface : string;
  Scope : RelationScope
}.

(** [relationDoc]; Go's [int] fields are integers. *)
Record relationDoc := mkRelationDoc {
  relDocID : string;
  relKey : string;
  relModelUUID : string;
  relId : Z;
  relEndpoints : list Endpoint;
  relLife : Life;
  relUnitCount : Z
}.

(** The fields of [applicationDoc] and [remoteApplicationDoc] that the
    relation code queries and asserts on. *)
Record applicationDoc := mkApplicationDoc {
  appDocID : string;
  appName : string;
  appLife : Life;
  appUnitCount : Z;
  appRelationCount : Z
}.

Record remoteApplicationDoc := mkRemoteApplicationDoc {
  rappDocID : string;
  rappName : string;
  rappLife : Life;
  rappRelationCount : Z
}.

(** [Relation]: the in-memory snapshot.  The [st] handle of the Go struct
    is the database value passed explicitly to every operation. *)
Record Relation := mkRelation { doc : relationDoc }.

Definition setLife (l : Life) (d : relationDoc) : relationDoc :=
  {| relDocID := relDocID d; relKey := relKey d;
     relModelUUID := relModelUUID d; relId := relId d;
     relEndpoints := relEndpoints d; relLife := l;
     relUnitCount := relUnitCount d |}.

(** ** BSON values, as far as the operation builders use them *)

#[warnings="-register-all"]
Inductive bval :=
| VInt (n : Z)
| VStr (s : string)
| VLife (l : Life)
| VDoc (d : list (string * bval))
| VDocs (ds : list (list (string * bval))).

(** [bson.D]: an ordered list of named values. *)
Abbreviation D := (list (string * bval)).

(** ** Transaction operations *)

Inductive Collection :=
| relationsC | applicationsC | remoteApplicationsC | settingsC | cleanupsC
| otherC (name : string).

#[global] Instance Collection_eq_dec : EqDecision Collection.
Proof. solve_decision. Defined.

Inductive cleanupKind :=
| cleanupRelationSettings
| cleanupOther (kind : string).

#[global] Instance cleanupKind_eq_dec : EqDecision cleanupKind.
Proof. solve_decision. Defined.

Record cleanupDoc := mkCleanupDoc {
  cleanupKindOf : cleanupKind;
  cleanupPrefix : string
}.

#[global] Instance cleanupDoc_eq_dec : EqDecision cleanupDoc.
Proof. solve_decision. Defined.

(** The [Id] of an operation is a document id, or an object id generated
    when the operation is built ([bson.NewObjectId]). *)
Inductive OpId :=
| IdStr (id : string)
| IdNewObject.

(** [txn.Op].  A [nil] interface field is [None]. *)
Record Op := mkOp {
  C : Collection;
  Id : OpId;
  Assert : option D;
  Insert : option cleanupDoc;
  Update : option D;
  Remove : bool
}.

(** ** Errors *)

Inductive error :=
| mgoErrNotFound
| errAlreadyDying
| ErrNoOperations
| ErrChangeComplete
| ErrExcessiveContention
| StoreError (msg : string)
| NotFoundf (format : string) (args : list string)
| Errorf (format : string) (args : list string)
| Annotatef (cause : error) (format : string) (args : list string)
| Trace (cause : error).

(** [errors.Cause]: annotations and traces keep the underlying error. *)
Fixpoint Cause (e : error) : error :=
  match e with
  | Annotatef c _ _ => Cause c
  | Trace c => Cause c
  | _ => e
  end.

Definition IsNotFound (e : error) : bool :=
  match Cause e with
  | NotFoundf _ _ => true
  | _ => false
  end.

(** A Go result pair [(value, error)]. *)
Inductive res (A : Type) :=
| Ok (a : A)
| Err (e : error).
Arguments Ok {A} a.
Arguments Err {A} e.

(** ** The database *)

Record Database := mkDatabase {
  relations : gmap string relationDoc;
  applications : gmap string applicationDoc;
  remoteApplications : gmap string remoteApplicationDoc;
  settings : gmap string D;
  cleanups : list cleanupDoc;
  fault : option string
}.

Definition setRelations (f : gmap string relationDoc → gmap string relationDoc)
  (db : Database) : Database :=
  {| relations := f (relations db); applications := applications db;
     remoteApplications := remoteApplications db; settings := settings db;
     cleanups := cleanups db; fault := fault db |}.

Definition setApplications
  (f : gmap string applicationDoc → gmap string applicationDoc)
  (db : Database) : Database :=
  {| relations := relations db; applications := f (applications db);
     remoteApplications := remoteApplications db; settings := settings db;
     cleanups := cleanups db; fault := fault db |}.

Definition setRemoteApplications
  (f : gmap string remoteApplicationDoc → gmap string remoteApplicationDoc)
  (db : Database) : Database :=
  {| relations := relations db; applications := applications db;
     remoteApplications := f (remoteApplications db); settings := settings db;
     cleanups := cleanups db; fault := fault db |}.

Definition setSettings (f : gmap string D → gmap string D)
  (db : Database) : Database :=
  {| relations := relations db; applications := applications db;
     remoteApplications := remoteApplications db; settings := f (settings db);
     cleanups := cleanups db; fault := fault db |}.

Definition setCleanups (f : list cleanupDoc → list cleanupDoc)
  (db : Database) : Database :=
  {| relations := relations db; applications := applications db;
     remoteApplications := remoteApplications db; settings := settings db;
     cleanups := f (cleanups db); fault := fault db |}.

(** ** Collaborators outside the package

    Functions the relation code calls whose sources are not part of the
    development: [State.docID] (the model-scoped document id of a local
    name), [names.UnitApplication] ([None] for the error result), the
    store's regular expression matching of a pattern against a string, and
    the removal operation builders of [Application] and
    [RemoteApplication]. *)
Class Externals := {
  docID : string → string;
  UnitApplication : string → option string;
  regexMatch : string → string → bool;
  applicationRemoveOps : Database → applicationDoc → D → res (list Op);
  remoteApplicationRemoveOps : remoteApplicationDoc → D → list Op
}.

Section Model.
Context `{Externals}.

(** ** Query and assertion evaluation *)

(** Modelled from the spec: the Document Store Client is an external
    collaborator (the MongoDB driver), absent from the sources; section 2
    gives it find-by-query and optimistic precondition checks that
    "assert current field values".  A condition document holds when each
    of its elements holds of the document's fields: a plain value is an
    equality test, [$gt] a strict integer comparison, [$regex] a match of
    a string field against a pattern, [$or] a disjunction of condition
    documents. *)
Definition scalarEq (a b : bval) : bool :=
  match a, b with
  | VInt x, VInt y => bool_decide (x = y)
  | VStr x, VStr y => bool_decide (x = y)
  | VLife x, VLife y => bool_decide (x = y)
  | _, _ => false
  end.

Definition compareGt (field : option bval) (bound : bval) : bool :=
  match field, bound with
  | Some (VInt n), VInt k => bool_decide (k < n)
  | _, _ => false
  end.

Definition compareRegex (field : option bval) (pattern : bval) : bool :=
  match field, pattern with
  | Some (VStr s), VStr re => regexMatch re s
  | _, _ => false
  end.

Fixpoint elemHolds (fields : string → option bval) (name : string)
  (v : bval) {struct v} : bool :=
  match v with
  | VDocs ds =>
      if bool_decide (name = "$or")
      then existsb (forallb (λ e, elemHolds fields e.1 e.2)) ds
      else false
  | VDoc [(op, bound)] =>
      if bool_decide (op = "$gt") then compareGt (fields name) bound
      else if bool_decide (op = "$regex") then compareRegex (fields name) bound
      else false
  | VDoc _ => false
  | _ =>
      match fields name with
      | Some w => scalarEq w v
      | None => false
      end
  end.

Definition matches (fields : string → option bval) (cond : D) : bool :=
  forallb (λ e, elemHolds fields e.1 e.2) cond.

(** The view of a stored document as named BSON fields, and the effect of
    writing one field. *)
Class Document (A : Type) := {
  docFields : A → string → option bval;
  docSet : string → bval → A → A
}.

#[global] Instance relationDoc_Document : Document relationDoc := {
  docFields d name :=
    if bool_decide (name = "_id") then Some (VStr (relDocID d))
    else if bool_decide (name = "key") then Some (VStr (relKey d))
    else if bool_decide (name = "model-uuid") then Some (VStr (relModelUUID d))
    else if bool_decide (name = "id") then Some (VInt (relId d))
    else if bool_decide (name = "life") then Some (VLife (relLife d))
    else if bool_decide (name = "unitcount") then Some (VInt (relUnitCount d))
    else None;
  docSet name v d :=
    match v with
    | VLife l => if bool_decide (name = "life") then setLife l d else d
    | VInt n =>
        if bool_decide (name = "unitcount")
        then {| relDocID := relDocID d; relKey := relKey d;
                relModelUUID := relModelUUID d; relId := relId d;
                relEndpoints := relEndpoints d; relLife := relLife d;
                relUnitCount := n |}
        else d
    | _ => d
    end
}.

#[global] Instance applicationDoc_Document : Document applicationDoc := {
  docFields d name :=
    if bool_decide (name = "_id") then Some (VStr (appDocID d))
    else if bool_decide (name = "name") then Some (VStr (appName d))
    else if bool_decide (name = "life") then Some (VLife (appLife d))
    else if bool_decide (name = "unitcount") then Some (VInt (appUnitCount d))
    else if bool_decide (name = "relationcount")
    then Some (VInt (appRelationCount d))
    else None;
  docSet name v d :=
    match v with
    | VLife l =>
        if bool_decide (name = "life")
        then {| appDocID := appDocID d; appName := appName d; appLife := l;
                appUnitCount := appUnitCount d;
                appRelationCount := appRelationCount d |}
        else d
    | VInt n =>
        if bool_decide (name = "unitcount")
        then {| appDocID := appDocID d; appName := appName d;
                appLife := appLife d; appUnitCount := n;
                appRelationCount := appRelationCount d |}
        else if bool_decide (name = "relationcount")
        then {| appDocID := appDocID d; appName := appName d;
                appLife := appLife d; appUnitCount := appUnitCount d;
                appRelationCount := n |}
        else d
    | _ => d
    end
}.

#[global] Instance remoteApplicationDoc_Document :
  Document remoteApplicationDoc := {
  docFields d name :=
    if bool_decide (name = "_id") then Some (VStr (rappDocID d))
    else if bool_decide (name = "name") then Some (VStr (rappName d))
    else if bool_decide (name = "life") then Some (VLife (rappLife d))
    else if bool_decide (name = "relationcount")
    then Some (VInt (rappRelationCount d))
    else None;
  docSet name v d :=
    match v with
    | VLife l =>
        if bool_decide (name = "life")
        then {| rappDocID := rappDocID d; rappName := rappName d;
                rappLife := l; rappRelationCount := rappRelationCount d |}
        else d
    | VInt n =>
        if bool_decide (name = "relationcount")
        then {| rappDocID := rappDocID d; rappName := rappName d;
                rappLife := rappLife d; rappRelationCount := n |}
        else d
    | _ => d
    end
}.

(** A settings document is stored under its [_id]; its other fields are
    the stored BSON elements. *)
Definition settingsFields (id : string) (d : D) (name : string) : option bval :=
  if bool_decide (name = "_id") then Some (VStr id)
  else snd <$> List.find (λ e, bool_decide (e.1 = name)) d.

(** Modelled from the spec: the store's reads ("find-by-id,
    find-by-query").  A failing store ([fault]) fails every read; a read
    by [_id] of a local name is scoped to the model through [docID]. *)
Definition FindId {A} (coll : gmap string A) (db : Database) (id : string)
  : res A :=
  match fault db with
  | Some msg => Err (StoreError msg)
  | None =>
      match coll !! id with
      | Some d => Ok d
      | None => Err mgoErrNotFound
      end
  end.

Definition FindOne {A} `{Document A} (coll : gmap string A) (db : Database)
  (sel : D) : res A :=
  match fault db with
  | Some msg => Err (StoreError msg)
  | None =>
      match sel with
      | ("_id", VStr name) :: cond =>
          match coll !! docID name with
          | Some d =>
              if matches (docFields d) cond then Ok d else Err mgoErrNotFound
          | None => Err mgoErrNotFound
          end
      | _ =>
          match List.find (λ kd, matches (docFields kd.2) sel)
                  (map_to_list coll) with
          | Some kd => Ok kd.2
          | None => Err mgoErrNotFound
          end
      end
  end.

(** [settings.Find(sel).Select(bson.D{{"_id", 1}}).All(&docs)]: the ids of
    all settings documents that satisfy [sel]. *)
Definition FindAllIds (db : Database) (sel : D) : res (list string) :=
  match fault db with
  | Some msg => Err (StoreError msg)
  | None =>
      Ok (List.filter (λ kd, matches (settingsFields kd.1 kd.2) sel)
            (map_to_list (settings db))).*1
  end.

(** ** The relation operations of [relation.go] *)

Definition isAliveDoc : D := [("life", VLife Alive)].

(** Modelled from the spec: [newCleanupOp] is defined elsewhere in the
    package; section 4.3 says a cleanup record "carries a kind tag and an
    opaque key prefix", and enqueueing one inserts it under a new id. *)
Definition newCleanupOp (kind : cleanupKind) (prefix : string) : Op :=
  {| C := cleanupsC; Id := IdNewObject; Assert := None;
     Insert := Some (mkCleanupDoc kind prefix); Update := None;
     Remove := false |}.

Definition isMgoErrNotFound (e : error) : bool :=
  match e with
  | mgoErrNotFound => true
  | _ => false
  end.

Definition isErrAlreadyDying (e : error) : bool :=
  match e with
  | errAlreadyDying => true
  | _ => false
  end.

Definition String_ (r : Relation) : string := relKey (doc r).

Definition Id_ (r : Relation) : Z := relId (doc r).

Definition Refresh (r : Relation) (db : Database) : option error * Relation :=
  match FindId (relations db) db (relDocID (doc r)) with
  | Err err =>
      if isMgoErrNotFound err
      then (Some (NotFoundf "relation %v" [String_ r]), r)
      else (Some (Annotatef err "cannot refresh relation %v" [String_ r]), r)
  | Ok d =>
      if bool_decide (relId (doc r) ≠ relId d)
      then (Some (NotFoundf "relation %v" [String_ r]), r)
      else (None, mkRelation d)
  end.

Definition removeLocalEndpointOps (r : Relation) (db : Database)
  (ep : Endpoint) (departingUnitName : string) : res (list Op) :=
  let hasRelation : D := [("relationcount", VDoc [("$gt", VInt 0)])] in
  let departingUnitServiceMatchesEndpoint :=
    match UnitApplication departingUnitName with
    | Some s => bool_decide (s = ApplicationName ep)
    | None => false
    end in
  let decrement (asserts : D) : res (list Op) :=
    Ok [ {| C := applicationsC;
            Id := IdStr (docID (ApplicationName ep));
            Assert := Some asserts; Insert := None;
            Update := Some [("$inc", VDoc [("relationcount", VInt (-1))])];
            Remove := false |} ] in
  if bool_decide (departingUnitName = "") then
    decrement (hasRelation ++ isAliveDoc)
  else if departingUnitServiceMatchesEndpoint then
    let cannotDieYet : D := [("unitcount", VDoc [("$gt", VInt 0)])] in
    decrement (hasRelation ++ cannotDieYet)
  else
    let hasLastRef : D :=
      [("life", VLife Dying); ("unitcount", VInt 0);
       ("relationcount", VInt 1)] in
    let removable : D := [("_id", VStr (ApplicationName ep))] ++ hasLastRef in
    match FindOne (applications db) db removable with
    | Ok svc => applicationRemoveOps db svc hasLastRef
    | Err err =>
        if isMgoErrNotFound err then
          decrement
            [("$or", VDocs [ [("life", VLife Alive)];
                             [("unitcount", VDoc [("$gt", VInt 0)])];
                             [("relationcount", VDoc [("$gt", VInt 1)])] ])]
        else Err err
    end.

Definition removeRemoteEndpointOps (r : Relation) (db : Database)
  (ep : Endpoint) (unitDying : bool) : res (list Op) :=
  let hasRelation : D := [("relationcount", VDoc [("$gt", VInt 0)])] in
  let decrement (asserts : D) : res (list Op) :=
    Ok [ {| C := remoteApplicationsC;
            Id := IdStr (docID (ApplicationName ep));
            Assert := Some asserts; Insert := None;
            Update := Some [("$inc", VDoc [("relationcount", VInt (-1))])];
            Remove := false |} ] in
  if negb unitDying then
    decrement (hasRelation ++ isAliveDoc)
  else
    let hasLastRef : D :=
      [("life", VLife Dying); ("relationcount", VInt 1)] in
    let removable : D := [("_id", VStr (ApplicationName ep))] ++ hasLastRef in
    match FindOne (remoteApplications db) db removable with
    | Ok svc => Ok (remoteApplicationRemoveOps svc hasLastRef)
    | Err err =>
        if isMgoErrNotFound err then
          decrement
            [("$or", VDocs [ [("life", VLife Alive)];
                             [("relationcount", VDoc [("$gt", VInt 1)])] ])]
        else Err err
    end.

(** Modelled from the spec: [applicationByName] is defined elsewhere in
    the package; section 4.1 step 3b has the builder "determine whether
    that related entity is a local entity ... or a remote/foreign entity".
    The name is looked up among the remote applications and then among the
    local ones; an unknown name is a not-found error. *)
Inductive ApplicationEntity :=
| LocalApplication (d : applicationDoc)
| RemoteApplication (d : remoteApplicationDoc).

Definition IsRemote (app : ApplicationEntity) : bool :=
  match app with
  | LocalApplication _ => false
  | RemoteApplication _ => true
  end.

Definition applicationByName (db : Database) (name : string)
  : res ApplicationEntity :=
  match FindId (remoteApplications db) db (docID name) with
  | Ok d => Ok (RemoteApplication d)
  | Err err =>
      if isMgoErrNotFound err then
        match FindId (applications db) db (docID name) with
        | Ok d => Ok (LocalApplication d)
        | Err err' =>
            if isMgoErrNotFound err'
            then Err (NotFoundf "application %q" [name])
            else Err err'
        end
      else Err err
  end.

(** The loop of [removeOps] over the relation's endpoints; [ops] is the
    slice built so far. *)
Fixpoint removeEndpointsOps (r : Relation) (db : Database)
  (ignoreService departingUnitName : string) (eps : list Endpoint)
  (ops : list Op) : res (list Op) :=
  match eps with
  | [] => Ok ops
  | ep :: eps' =>
      if bool_decide (ApplicationName ep = ignoreService) then
        removeEndpointsOps r db ignoreService departingUnitName eps' ops
      else
        match applicationByName db (ApplicationName ep) with
        | Err err => Err (Trace err)
        | Ok app =>
            if IsRemote app then
              match removeRemoteEndpointOps r db ep
                      (bool_decide (departingUnitName ≠ "")) with
              | Err err => Err (Trace err)
              | Ok epOps =>
                  removeEndpointsOps r db ignoreService departingUnitName
                    eps' (ops ++ epOps)
              end
            else
              match removeLocalEndpointOps r db ep departingUnitName with
              | Err err => Err (Trace err)
              | Ok epOps =>
                  removeEndpointsOps r db ignoreService departingUnitName
                    eps' (ops ++ epOps)
              end
        end
  end.

Definition removeOps (r : Relation) (db : Database)
  (ignoreService departingUnitName : string) : res (list Op) :=
  let relOp :=
    {| C := relationsC; Id := IdStr (relDocID (doc r));
       Assert :=
         Some (if bool_decide (departingUnitName ≠ "")
               then [("life", VLife Dying); ("unitcount", VInt 1)]
               else [("life", VLife Alive); ("unitcount", VInt 0)]);
       Insert := None; Update := None; Remove := true |} in
  match removeEndpointsOps r db ignoreService departingUnitName
          (relEndpoints (doc r)) [relOp] with
  | Err err => Err err
  | Ok ops =>
      let cleanupOp :=
        newCleanupOp cleanupRelationSettings
          ("r#" +:+ pretty (Id_ r) +:+ "#") in
      Ok (ops ++ [cleanupOp])
  end.

(** [destroyOps] returns [(ops, isRemove, err)]. *)
Definition destroyOps (r : Relation) (db : Database) (ignoreService : string)
  : res (list Op * bool) :=
  if bool_decide (relLife (doc r) ≠ Alive) then Err errAlreadyDying
  else if bool_decide (relUnitCount (doc r) = 0) then
    match removeOps r db ignoreService "" with
    | Err err => Err err
    | Ok ops => Ok (ops, true)
    end
  else
    Ok ([ {| C := relationsC; Id := IdStr (relDocID (doc r));
             Assert := Some [("life", VLife Alive);
                             ("unitcount", VDoc [("$gt", VInt 0)])];
             Insert := None;
             Update := Some [("$set", VDoc [("life", VLife Dying)])];
             Remove := false |} ], false).

(** The [buildTxn] closure of [Destroy].  The closure's captured [rel] is
    threaded through as state: [Refresh] overwrites it.  [Destroy_buildOps]
    is the part of the closure after the refresh. *)
Definition Destroy_buildOps (rel : Relation) (db : Database) : res (list Op) :=
  match destroyOps rel db "" with
  | Err err => if isErrAlreadyDying err then Err ErrNoOperations else Err err
  | Ok (ops, _) => Ok ops
  end.

Definition Destroy_buildTxn (attempt : nat) (rel : Relation) (db : Database)
  : res (list Op) * Relation :=
  if bool_decide (0 < attempt)%nat then
    match Refresh rel db with
    | (Some err, rel') =>
        if IsNotFound err then (Ok [], rel') else (Err err, rel')
    | (None, rel') => (Destroy_buildOps rel' db, rel')
    end
  else (Destroy_buildOps rel db, rel).

Definition isSolePeer (r : Relation) : bool :=
  match relEndpoints (doc r) with
  | [ep] => bool_decide (Role ep = RolePeer)
  | _ => false
  end.

Section DestroyWith.

(** [State.run]: the transaction runner, given a transaction builder and
    the state the builder closes over. *)
Variable run : ∀ St : Type,
  (nat → St → Database → res (list Op) * St) →
  St → Database → option error * St * Database.

(** [Destroy] returns the error, the caller's snapshot [r] as the call
    leaves it, and the database. *)
Definition Destroy (r : Relation) (db : Database)
  : option error * Relation * Database :=
  let annotate (err : error) :=
    Annotatef err "cannot destroy relation %q" [String_ r] in
  if isSolePeer r then
    (Some (annotate (Errorf "is a peer relation" [])), r, db)
  else
    let rel := mkRelation (doc r) in
    match run Relation Destroy_buildTxn rel db with
    | (None, _, db') => (None, mkRelation (setLife Dying (doc r)), db')
    | (Some err, _, db') => (Some (annotate err), r, db')
    end.

End DestroyWith.

(** [relationSettingsCleanupChange] and its [Prepare]. *)
Record relationSettingsCleanupChange := mkChange { Prefix : string }.

Definition Prepare (change : relationSettingsCleanupChange) (db : Database)
  : res (list Op) :=
  let sel : D := [("_id", VDoc [("$regex", VStr ("^" +:+ Prefix change))])] in
  match FindAllIds db sel with
  | Err err => Err (Trace err)
  | Ok docs =>
      if bool_decide (length docs = 0%nat) then Err ErrChangeComplete
      else
        Ok (map (λ id, {| C := settingsC; Id := IdStr id; Assert := None;
                          Insert := None; Update := None; Remove := true |})
              docs)
  end.

(** ** The transaction executor *)

(** Modelled from the spec: committing an operation set is the store's
    "atomic conditional multi-document transaction submission with
    optimistic precondition checks (assert current field values, fail
    whole transaction if any assertion fails)" of section 2; the store
    itself is absent from the sources.  An assertion is evaluated on the
    document the operation names and fails when that document is absent;
    documents of collections outside the model are absent. *)
Definition opFields (db : Database) (op : Op)
  : option (string → option bval) :=
  match Id op with
  | IdNewObject => None
  | IdStr id =>
      match C op with
      | relationsC => docFields <$> relations db !! id
      | applicationsC => docFields <$> applications db !! id
      | remoteApplicationsC => docFields <$> remoteApplications db !! id
      | settingsC => settingsFields id <$> settings db !! id
      | cleanupsC | otherC _ => None
      end
  end.

Definition assertHolds (db : Database) (op : Op) : bool :=
  match Assert op with
  | None => true
  | Some cond =>
      match opFields db op with
      | Some fields => matches fields cond
      | None => false
      end
  end.

(** Modelled from the spec: the update documents the builders emit,
    [$set] of fields and [$inc] of integer fields. *)
Definition applyUpdate {A} `{Document A} (u : D) (d : A) : A :=
  fold_left
    (λ d e,
       match e with
       | ("$set", VDoc fs) => fold_left (λ d f, docSet f.1 f.2 d) fs d
       | ("$inc", VDoc fs) =>
           fold_left
             (λ d f,
                match docFields d f.1, f.2 with
                | Some (VInt n), VInt k => docSet f.1 (VInt (n + k)) d
                | _, _ => d
                end) fs d
       | _ => d
       end) u d.

Definition changeDoc {A} `{Document A} (op : Op) (id : string)
  (coll : gmap string A) : gmap string A :=
  if Remove op then delete id coll
  else
    match Update op with
    | Some u => alter (applyUpdate u) id coll
    | None => coll
    end.

(** Modelled from the spec: the effect of one committed operation; an
    inserted cleanup record joins the queue of section 4.3. *)
Definition applyChange (db : Database) (op : Op) : Database :=
  match Id op with
  | IdStr id =>
      match C op with
      | relationsC => setRelations (changeDoc op id) db
      | applicationsC => setApplications (changeDoc op id) db
      | remoteApplicationsC => setRemoteApplications (changeDoc op id) db
      | settingsC =>
          if Remove op then setSettings (delete id) db else db
      | cleanupsC | otherC _ => db
      end
  | IdNewObject =>
      match C op, Insert op with
      | cleanupsC, Some c => setCleanups (λ q, q ++ [c]) db
      | _, _ => db
      end
  end.

(** The settings collection without the documents named [ids]. *)
Definition deleteAll (ids : list string) (m : gmap string D) : gmap string D :=
  fold_left (λ m id, delete id m) ids m.

(** [None] is the aborted transaction. *)
Definition applyOps (db : Database) (ops : list Op) : option Database :=
  if forallb (assertHolds db) ops
  then Some (fold_left applyChange ops db)
  else None.

Definition isErrNoOperations (e : error) : bool :=
  match e with
  | ErrNoOperations => true
  | _ => false
  end.

(** Modelled from the spec: [State.run] and the runner behind it are
    absent from the sources; this is the protocol of section 4.2.  The
    attempt counter starts at 0 and is bounded by the retry [budget]; a
    builder error stops the loop, "no operations needed" with success; an
    empty operation set is the success-no-op of step 2 and is not
    submitted; a committed set stops with success, an aborted one retries
    with the next attempt, any other store error is surfaced. *)
Fixpoint runLoop {St : Type} (budget attempt : nat)
  (build : nat → St → Database → res (list Op) * St)
  (s : St) (db : Database) : option error * St * Database :=
  match budget with
  | O => (Some ErrExcessiveContention, s, db)
  | S budget' =>
      match build attempt s db with
      | (Err err, s') =>
          if isErrNoOperations err then (None, s', db)
          else (Some err, s', db)
      | (Ok [], s') => (None, s', db)
      | (Ok ops, s') =>
          match fault db with
          | Some msg => (Some (StoreError msg), s', db)
          | None =>
              match applyOps db ops with
              | Some db' => (None, s', db')
              | None => runLoop budget' (S attempt) build s' db
              end
          end
      end
  end.

Definition txnRun (budget : nat) (St : Type)
  (build : nat → St → Database → res (list Op) * St)
  (s : St) (db : Database) : option error * St * Database :=
  runLoop budget 0 build s db.

(** ** Predicates on operations, used to state the properties *)

(** The operation enqueues the cleanup record [c]. *)
Definition enqueuesCleanup (c : cleanupDoc) (op : Op) : bool :=
  bool_decide (C op = cleanupsC ∧ Insert op = Some c).

(** The removal operation sets that the collaborators build for an
    application do not enqueue the cleanup record [c]. *)
Definition inlinedRemovalsDoNotEnqueue (c : cleanupDoc) : Prop :=
  (∀ db d asserts ops,
     applicationRemoveOps db d asserts = Ok ops →
     Forall (λ op, enqueuesCleanup c op = false) ops) ∧
  (∀ d asserts,
     Forall (λ op, enqueuesCleanup c op = false)
       (remoteApplicationRemoveOps d asserts)).

(** The operation decrements [relationcount] by one. *)
Definition decrementsRelationCount (op : Op) : bool :=
  match Update op with
  | Some [("$inc", VDoc [("relationcount", VInt k)])] => bool_decide (k = -1)
  | _ => false
  end.

(** The operation's assertion holds only of documents whose
    [relationcount] is positive. *)
Definition guardsPositiveRelationCount (op : Op) : Prop :=
  ∃ cond, Assert op = Some cond ∧
    ∀ fields, matches fields cond = true →
      ∃ n, fields "relationcount" = Some (VInt n) ∧ 0 < n.

(** The operation's assertion holds of no document that satisfies
    [eligible]. *)
Definition excludes (op : Op) (eligible : D) : Prop :=
  ∃ cond, Assert op = Some cond ∧
    ∀ fields, matches fields cond = true → matches fields eligible = false.

End Model.

(** ** A sample deployment

    A concrete instance of the collaborators and a small database, used to
    run the operations above on explicit inputs. *)
Module Sample.

Fixpoint unitApplicationOf (s : string) : option string :=
  match s with
  | EmptyString => None
  | String c rest =>
      if bool_decide (c = "/"%char) then
        if bool_decide (rest = "") then None else Some ""
      else String c <$> unitApplicationOf rest
  end.

Definition anchoredPrefix (re s : string) : bool :=
  match re with
  | String c p => bool_decide (c = "^"%char) && String.prefix p s
  | EmptyString => false
  end.

Definition removeApplication (db : Database) (d : applicationDoc) (asserts : D)
  : res (list Op) :=
  Ok [ {| C := applicationsC; Id := IdStr (appDocID d);
          Assert := Some asserts; Insert := None; Update := None;
          Remove := true |};
       {| C := settingsC; Id := IdStr ("a#" +:+ appName d); Assert := None;
          Insert := None; Update := None; Remove := true |} ].

Definition removeRemoteApplication (d : remoteApplicationDoc) (asserts : D)
  : list Op :=
  [ {| C := remoteApplicationsC; Id := IdStr (rappDocID d);
       Assert := Some asserts; Insert := None; Update := None;
       Remove := true |} ].

#[export] Instance externals : Externals := {
  docID name := "m:" +:+ name;
  UnitApplication := unitApplicationOf;
  regexMatch := anchoredPrefix;
  applicationRemoveOps := removeApplication;
  remoteApplicationRemoveOps := removeRemoteApplication
}.

Definition wordpressEp : Endpoint :=
  mkEndpoint "wordpress" "db" RoleRequirer "mysql" ScopeGlobal.

Definition mysqlEp : Endpoint :=
  mkEndpoint "mysql" "server" RoleProvider "mysql" ScopeGlobal.

Definition riakEp : Endpoint :=
  mkEndpoint "riak" "ring" RolePeer "riak" ScopeGlobal.

Definition relKeyWM : string := "wordpress:db mysql:server".

(** A relation snapshot between wordpress and mysql. *)
Definition relWM (life : Life) (units : Z) : Relation :=
  mkRelation (mkRelationDoc ("m:" +:+ relKeyWM) relKeyWM "m" 7
                [wordpressEp; mysqlEp] life units).

(** The peer relation of riak. *)
Definition relPeer (life : Life) : Relation :=
  mkRelation (mkRelationDoc "m:riak:ring" "riak:ring" "m" 3 [riakEp] life 0).

Definition app (name : string) (life : Life) (units rels : Z)
  : applicationDoc :=
  mkApplicationDoc ("m:" +:+ name) name life units rels.

(** A database holding the relation [relWM life units], its two
    applications and three settings documents. *)
Definition dbWM (life : Life) (units : Z) : Database :=
  {| relations := {[ "m:" +:+ relKeyWM := doc (relWM life units) ]};
     applications :=
       {[ "m:wordpress" := app "wordpress" Alive 1 1;
          "m:mysql" := app "mysql" Alive 1 1 ]};
     remoteApplications := ∅;
     settings :=
       {[ "r#7#requirer#wordpress/0" := [("host", VStr "10.0.0.1")];
          "r#7#provider#mysql/0" := [("port", VInt 3306)];
          "r#8#provider#mysql/0" := [] ]};
     cleanups := [];
     fault := None |}.

(** The same database after the relation document has been removed. *)
Definition dbGone : Database := setRelations (λ _, ∅) (dbWM Alive 0).

Definition dbPeer : Database :=
  {| relations := {[ "m:riak:ring" := doc (relPeer Dying) ]};
     applications := {[ "m:riak" := app "riak" Dying 2 1 ]};
     remoteApplications := ∅; settings := ∅; cleanups := []; fault := None |}.

(** A database in which mysql is Dying, has no units left and is held
    only by the relation, itself Dying with one unit in scope. *)
Definition dbLastRef : Database :=
  {| relations := {[ "m:" +:+ relKeyWM := doc (relWM Dying 1) ]};
     applications :=
       {[ "m:wordpress" := app "wordpress" Alive 1 1;
          "m:mysql" := app "mysql" Dying 0 1 ]};
     remoteApplications := ∅; settings := ∅; cleanups := [];
     fault := None |}.

(** A database whose relation document under the same id belongs to a
    later relation, with [Id] 9. *)
Definition dbRecreated : Database :=
  setRelations
    (λ _, {[ "m:" +:+ relKeyWM :=
               mkRelationDoc ("m:" +:+ relKeyWM) relKeyWM "m" 9
                 [wordpressEp; mysqlEp] Alive 0 ]})
    (dbWM Alive 0).

(** A database in which mysql is Alive with a [relationcount] of 0. *)
Definition dbUnreferenced : Database :=
  setApplications (<["m:mysql" := app "mysql" Alive 1 0]>) (dbWM Dying 1).

Definition decrementOp (c : Collection) (name : string) (cond : D) : Op :=
  {| C := c; Id := IdStr ("m:" +:+ name); Assert := Some cond;
     Insert := None;
     Update := Some [("$inc", VDoc [("relationcount", VInt (-1))])];
     Remove := false |}.

Definition settingsCleanupWM : cleanupDoc :=
  mkCleanupDoc cleanupRelationSettings "r#7#".

(** The operations that remove the relation between wordpress and mysql
    when no unit is departing. *)
Definition removalOpsWM : list Op :=
  [ {| C := relationsC; Id := IdStr ("m:" +:+ relKeyWM);
       Assert := Some [("life", VLife Alive); ("unitcount", VInt 0)];
       Insert := None; Update := None; Remove := true |};
    decrementOp applicationsC "wordpress"
      [("relationcount", VDoc [("$gt", VInt 0)]); ("life", VLife Alive)];
    decrementOp applicationsC "mysql"
      [("relationcount", VDoc [("$gt", VInt 0)]); ("life", VLife Alive)];
    {| C := cleanupsC; Id := IdNewObject; Assert := None;
       Insert := Some settingsCleanupWM; Update := None; Remove := false |} ].

(** The operations that remove the relation when the last unit in scope,
    of wordpress, departs and mysql holds its last reference. *)
Definition departureOpsWM : list Op :=
  [ {| C := relationsC; Id := IdStr ("m:" +:+ relKeyWM);
       Assert := Some [("life", VLife Dying); ("unitcount", VInt 1)];
       Insert := None; Update := None; Remove := true |};
    decrementOp applicationsC "wordpress"
      [("relationcount", VDoc [("$gt", VInt 0)]);
       ("unitcount", VDoc [("$gt", VInt 0)])];
    {| C := applicationsC; Id := IdStr "m:mysql";
       Assert := Some [("life", VLife Dying); ("unitcount", VInt 0);
                       ("relationcount", VInt 1)];
       Insert := None; Update := None; Remove := true |};
    {| C := settingsC; Id := IdStr "a#mysql"; Assert := None;
       Insert := None; Update := None; Remove := true |};
    {| C := cleanupsC; Id := IdNewObject; Assert := None;
       Insert := Some settingsCleanupWM; Update := None; Remove := false |} ].

(** The decrement emitted for mysql when a wordpress unit departs and
    mysql is not removable. *)
Definition notRemovableDecrement : Op :=
  decrementOp applicationsC "mysql"
    [("$or", VDocs [ [("life", VLife Alive)];
                     [("unitcount", VDoc [("$gt", VInt 0)])];
                     [("relationcount", VDoc [("$gt", VInt 1)])] ])].

(** The database [dbWM Alive 0] once the relation has been removed. *)
Definition dbRemoved : Database :=
  {| relations := ∅;
     applications :=
       {[ "m:wordpress" := app "wordpress" Alive 1 0;
          "m:mysql" := app "mysql" Alive 1 0 ]};
     remoteApplications := ∅;
     settings := settings (dbWM Alive 0);
     cleanups := [settingsCleanupWM];
     fault := None |}.

End Sample.

(** ** Endpoints and relation units of [relation.go] *)

#[global] Instance RelationScope_eq_dec : EqDecision RelationScope.
Proof. solve_decision. Defined.

(** [RelationUnit], as [Relation.unit] fills it in; the [st] handle is
    left out as for [Relation]. *)
Record RelationUnit := mkRelationUnit {
  ruRelation : Relation;
  unitName : string;
  isPrincipal : bool;
  checkUnitLife : bool;
  endpoint : Endpoint;
  scope : string
}.

#[global] Instance OpId_eq_dec : EqDecision OpId.
Proof. solve_decision. Defined.

(** The operation is the decrement of [relationcount] that the endpoint
    builders emit on the application document [id] of collection [c]. *)
Definition decrementsApplication (c : Collection) (id : string) (op : Op)
  : Prop :=
  C op = c ∧ Id op = IdStr id ∧ Insert op = None ∧ Remove op = false ∧
  Update op = Some [("$inc", VDoc [("relationcount", VInt (-1))])] ∧
  Assert op = Some [("relationcount", VDoc [("$gt", VInt 0)]);
                    ("life", VLife Alive)].

(** The string holds no ['#'], the separator of scope keys. *)
Fixpoint hashFree (s : string) : bool :=
  match s with
  | EmptyString => true
  | String c s' => negb (bool_decide (c = "#"%char)) && hashFree s'
  end.

Section Units.
Context `{Externals}.

(** [counterpartRole] of the package and [State.RemoteApplication] (its
    error result, [None] for success) are called by the functions below
    and defined elsewhere. *)
Variable counterpartRole : RelationRole → RelationRole.
Variable RemoteApplicationErr : Database → string → option error.

(** The loop of [Relation.Endpoint]: the first endpoint of the named
    application. *)
Fixpoint findEndpoint (applicationname : string) (eps : list Endpoint)
  : option Endpoint :=
  match eps with
  | [] => None
  | ep :: eps' =>
      if bool_decide (ApplicationName ep = applicationname) then Some ep
      else findEndpoint applicationname eps'
  end.

Definition Endpoint_ (r : Relation) (applicationname : string)
  : res Endpoint :=
  match findEndpoint applicationname (relEndpoints (doc r)) with
  | Some ep => Ok ep
  | None =>
      Err (Errorf "application %q is not a member of %q"
             [applicationname; String_ r])
  end.

Definition Endpoints (r : Relation) : list Endpoint := relEndpoints (doc r).

(** The loop of [RelatedEndpoints]: the endpoints of the given role, in
    order. *)
Fixpoint endpointsOfRole (role : RelationRole) (eps : list Endpoint)
  : list Endpoint :=
  match eps with
  | [] => []
  | ep :: eps' =>
      if bool_decide (Role ep = role) then ep :: endpointsOfRole role eps'
      else endpointsOfRole role eps'
  end.

Definition RelatedEndpoints (r : Relation) (applicationname : string)
  : res (list Endpoint) :=
  match Endpoint_ r applicationname with
  | Err err => Err err
  | Ok local =>
      let role := counterpartRole (Role local) in
      match endpointsOfRole role (relEndpoints (doc r)) with
      | [] =>
          Err (Errorf "no endpoints of %q relate to application %q"
                 [String_ r; applicationname])
      | eps => Ok eps
      end
  end.

(** [globalScope]: the scope prefix [r#<id>]. *)
Definition globalScope (r : Relation) : string :=
  "r#" +:+ pretty (relId (doc r)).

(** [Relation.unit].  The error of [names.UnitApplication] is the
    library's "is not a valid unit name" error. *)
Definition unit_ (r : Relation) (unitName principal : string)
  (isPrincipal checkUnitLife : bool) : res RelationUnit :=
  match UnitApplication unitName with
  | None => Err (Errorf "%q is not a valid unit name" [unitName])
  | Some serviceName =>
      match Endpoint_ r serviceName with
      | Err err => Err err
      | Ok ep =>
          let scope := globalScope r in
          let scope :=
            if bool_decide (Scope ep = ScopeContainer) then
              let container :=
                if bool_decide (principal = "") then unitName else principal in
              scope +:+ "#" +:+ container
            else scope in
          Ok {| ruRelation := r; unitName := unitName;
                isPrincipal := isPrincipal; checkUnitLife := checkUnitLife;
                endpoint := ep; scope := scope |}
      end
  end.

(** [RemoteUnit]: the unit must belong to a remote application. *)
Definition RemoteUnit (r : Relation) (db : Database) (unitName : string)
  : res RelationUnit :=
  match UnitApplication unitName with
  | None => Err (Trace (Errorf "%q is not a valid unit name" [unitName]))
  | Some serviceName =>
      match RemoteApplicationErr db serviceName with
      | Some err => Err (Trace err)
      | None => unit_ r unitName "" true false
      end
  end.

End Units.

(** The endpoint roles of the sample deployment pair providers with
    requirers and peers with peers. *)
Module SampleUnits.

Definition counterpart (role : RelationRole) : RelationRole :=
  match role with
  | RoleProvider => RoleRequirer
  | RoleRequirer => RoleProvider
  | RolePeer => RolePeer
  end.

Definition remoteApplicationErr (db : Database) (name : string)
  : option error :=
  match remoteApplications db !! ("m:" +:+ name) with
  | Some _ => None
  | None => Some (NotFoundf "remote application %q" [name])
  end.

(** A container-scoped relation between wordpress and its subordinate
    logging. *)
Definition loggingEp : Endpoint :=
  mkEndpoint "logging" "juju-info" RoleRequirer "juju-info" ScopeContainer.

Definition wordpressInfoEp : Endpoint :=
  mkEndpoint "wordpress" "juju-info" RoleProvider "juju-info" ScopeContainer.

Definition relLogging : Relation :=
  mkRelation (mkRelationDoc "m:logging:juju-info wordpress:juju-info"
                "logging:juju-info wordpress:juju-info" "m" 12
                [loggingEp; wordpressInfoEp] Alive 2).

End SampleUnits.

(** * Properties *)

Section Properties.
Context `{Externals}.

(** ** Snapshot refresh *)

Lemma FindId_ok {A} (coll : gmap string A) db id :
  fault db = None →
  FindId coll db id =
    match coll !! id with
    | Some d => Ok d
    | None => Err mgoErrNotFound
    end.
Proof. intros Hf. unfold FindId. by rewrite Hf. Qed.

Lemma Refresh_ok r db d :
  fault db = None →
  relations db !! relDocID (doc r) = Some d →
  relId d = relId (doc r) →
  Refresh r db = (None, mkRelation d).
Proof.
  intros Hf Hd Hid. unfold Refresh. rewrite FindId_ok, Hd by done.
  rewrite bool_decide_eq_false_2; [done | intros Hne; by apply Hne].
Qed.

Lemma Refresh_missing r db :
  fault db = None →
  relations db !! relDocID (doc r) = None →
  Refresh r db = (Some (NotFoundf "relation %v" [String_ r]), r).
Proof.
  intros Hf Hd. unfold Refresh. by rewrite FindId_ok, Hd by done.
Qed.

Lemma Refresh_recreated r db d :
  fault db = None →
  relations db !! relDocID (doc r) = Some d →
  relId d ≠ relId (doc r) →
  Refresh r db = (Some (NotFoundf "relation %v" [String_ r]), r).
Proof.
  intros Hf Hd Hid. unfold Refresh. rewrite FindId_ok, Hd by done.
  by rewrite bool_decide_eq_true_2 by congruence.
Qed.

(** C8. [Refresh] reports not-found, and leaves the in-memory snapshot as
    it was, both when the store holds no document under the relation's
    document id and when it holds one whose [Id] differs from the
    snapshot's; only a document with the snapshot's [Id] is adopted. *)
Theorem Refresh_not_found_or_same_incarnation (r : Relation) (db : Database) :
  fault db = None →
  (relations db !! relDocID (doc r) = None ∨
   (∃ d, relations db !! relDocID (doc r) = Some d ∧ relId d ≠ relId (doc r)) →
   ∃ err, Refresh r db = (Some err, r) ∧ IsNotFound err = true) ∧
  (∀ d, relations db !! relDocID (doc r) = Some d →
        relId d = relId (doc r) → Refresh r db = (None, mkRelation d)).
Proof.
  intros Hf. split.
  - intros [Hnone | (d & Hd & Hid)]; eexists; split.
    + by apply Refresh_missing.
    + reflexivity.
    + by eapply Refresh_recreated.
    + reflexivity.
  - intros d Hd Hid. by apply Refresh_ok.
Qed.

(** ** Evaluation of the conditions the builders emit *)

Lemma elemHolds_gt fields name (k : Z) :
  elemHolds fields name (VDoc [("$gt", VInt k)]) =
  compareGt (fields name) (VInt k).
Proof. reflexivity. Qed.

Lemma elemHolds_regex fields name (re : string) :
  elemHolds fields name (VDoc [("$regex", VStr re)]) =
  compareRegex (fields name) (VStr re).
Proof. reflexivity. Qed.

Lemma elemHolds_life fields name (l : Life) :
  elemHolds fields name (VLife l) =
  match fields name with
  | Some w => scalarEq w (VLife l)
  | None => false
  end.
Proof. reflexivity. Qed.

Lemma elemHolds_int fields name (n : Z) :
  elemHolds fields name (VInt n) =
  match fields name with
  | Some w => scalarEq w (VInt n)
  | None => false
  end.
Proof. reflexivity. Qed.

Lemma elemHolds_or fields (ds : list D) :
  elemHolds fields "$or" (VDocs ds) = existsb (matches fields) ds.
Proof. reflexivity. Qed.

Lemma relFields_life (d : relationDoc) :
  docFields d "life" = Some (VLife (relLife d)).
Proof. reflexivity. Qed.

Lemma relFields_unitcount (d : relationDoc) :
  docFields d "unitcount" = Some (VInt (relUnitCount d)).
Proof. reflexivity. Qed.

Lemma appFields_life (d : applicationDoc) :
  docFields d "life" = Some (VLife (appLife d)).
Proof. reflexivity. Qed.

Lemma appFields_unitcount (d : applicationDoc) :
  docFields d "unitcount" = Some (VInt (appUnitCount d)).
Proof. reflexivity. Qed.

Lemma appFields_relationcount (d : applicationDoc) :
  docFields d "relationcount" = Some (VInt (appRelationCount d)).
Proof. reflexivity. Qed.

Lemma rappFields_life (d : remoteApplicationDoc) :
  docFields d "life" = Some (VLife (rappLife d)).
Proof. reflexivity. Qed.

Lemma rappFields_relationcount (d : remoteApplicationDoc) :
  docFields d "relationcount" = Some (VInt (rappRelationCount d)).
Proof. reflexivity. Qed.

Lemma scalarEq_life (a b : Life) :
  scalarEq (VLife a) (VLife b) = bool_decide (a = b).
Proof. reflexivity. Qed.

Lemma scalarEq_int (a b : Z) :
  scalarEq (VInt a) (VInt b) = bool_decide (a = b).
Proof. reflexivity. Qed.

Lemma compareGt_int (n k : Z) :
  compareGt (Some (VInt n)) (VInt k) = bool_decide (k < n).
Proof. reflexivity. Qed.

Lemma matches_nil fields : matches fields [] = true.
Proof. reflexivity. Qed.

Lemma matches_cons fields name v (cond : D) :
  matches fields ((name, v) :: cond) =
  elemHolds fields name v && matches fields cond.
Proof. reflexivity. Qed.

Lemma matches_app fields (c1 c2 : D) :
  matches fields (c1 ++ c2) = matches fields c1 && matches fields c2.
Proof. unfold matches. apply forallb_app. Qed.

Create Rewrite HintDb cond.

#[local] Hint Rewrite matches_nil matches_cons matches_app elemHolds_gt
  elemHolds_regex elemHolds_life elemHolds_int elemHolds_or
  relFields_life relFields_unitcount appFields_life appFields_unitcount
  appFields_relationcount rappFields_life rappFields_relationcount
  scalarEq_life scalarEq_int compareGt_int andb_true_r orb_false_r : cond.

(** The self-assertion of the Dying transition, on a relation document. *)
Lemma matches_alive_units (d : relationDoc) :
  matches (docFields d)
    [("life", VLife Alive); ("unitcount", VDoc [("$gt", VInt 0)])] =
  bool_decide (relLife d = Alive) && bool_decide (0 < relUnitCount d).
Proof. by autorewrite with cond. Qed.

(** ** [destroyOps] *)

Lemma applyUpdate_set_life (l : Life) (d : relationDoc) :
  applyUpdate [("$set", VDoc [("life", VLife l)])] d = setLife l d.
Proof. reflexivity. Qed.

Lemma alter_lookup_insert {A} (f : A → A) (m : gmap string A) k d :
  m !! k = Some d → alter f k m = <[k := f d]> m.
Proof.
  intros Hd. apply map_eq. intros k'. rewrite lookup_alter, lookup_insert.
  destruct (decide (k = k')) as [<-|]; [by rewrite Hd | done].
Qed.

(** C2. For an Alive snapshot with units in scope, [destroyOps] returns
    exactly one operation and no removal: it targets the relation's own
    document, asserts [life == Alive] and [unitcount > 0], and sets [life]
    to Dying.  Committing it succeeds exactly on a stored document that is
    Alive with a positive unit count, and changes nothing but that
    document's life. *)
Theorem destroyOps_units_in_scope (r : Relation) (db : Database)
    (ignoreService : string) :
  relLife (doc r) = Alive →
  0 < relUnitCount (doc r) →
  let op :=
    {| C := relationsC; Id := IdStr (relDocID (doc r));
       Assert := Some [("life", VLife Alive);
                       ("unitcount", VDoc [("$gt", VInt 0)])];
       Insert := None;
       Update := Some [("$set", VDoc [("life", VLife Dying)])];
       Remove := false |} in
  destroyOps r db ignoreService = Ok ([op], false) ∧
  ∀ db0 db1 : Database,
    applyOps db0 [op] = Some db1 ↔
    ∃ d, relations db0 !! relDocID (doc r) = Some d ∧
         relLife d = Alive ∧ 0 < relUnitCount d ∧
         db1 = setRelations (<[relDocID (doc r) := setLife Dying d]>) db0.
Proof.
  intros Hlife Hunits op. split.
  - unfold destroyOps. rewrite Hlife.
    rewrite bool_decide_eq_false_2 by (intros Hne; by apply Hne).
    rewrite bool_decide_eq_false_2 by lia. reflexivity.
  - intros db0 db1. subst op. unfold applyOps, assertHolds, opFields.
    cbn [forallb Assert Id C fold_left].
    destruct (relations db0 !! relDocID (doc r)) as [d|] eqn:Hd;
      cbn [fmap option_fmap option_map].
    + rewrite matches_alive_units, andb_true_r.
      unfold applyChange, changeDoc.
      cbn [Id C Remove Update].
      change (applyUpdate [("$set", VDoc [("life", VLife Dying)])])
        with (setLife Dying).
      destruct (decide (relLife d = Alive ∧ 0 < relUnitCount d)) as [[Hl Hu]|Hn].
      * rewrite !bool_decide_eq_true_2 by done. cbn [andb].
        unfold setRelations at 1. rewrite (alter_lookup_insert _ _ _ d Hd).
        split.
        -- intros [= <-]. by exists d.
        -- intros (d' & [= <-] & _ & _ & ->). done.
      * split.
        -- intros Hsome. exfalso. apply Hn.
           destruct (bool_decide (relLife d = Alive)) eqn:E1; [|done].
           destruct (bool_decide (0 < relUnitCount d)) eqn:E2; [|done].
           split; [by apply bool_decide_eq_true in E1
                  | by apply bool_decide_eq_true in E2].
        -- intros (d' & [= <-] & Hl & Hu & _). by destruct Hn.
    + split; [done | intros (d' & Hd' & _); congruence].
Qed.

(** ** [removeOps] *)

Lemma removeLocalEndpointOps_no_departing r db ep :
  removeLocalEndpointOps r db ep "" =
  Ok [ {| C := applicationsC; Id := IdStr (docID (ApplicationName ep));
          Assert := Some [("relationcount", VDoc [("$gt", VInt 0)]);
                          ("life", VLife Alive)];
          Insert := None;
          Update := Some [("$inc", VDoc [("relationcount", VInt (-1))])];
          Remove := false |} ].
Proof. reflexivity. Qed.

Lemma removeRemoteEndpointOps_not_dying r db ep :
  removeRemoteEndpointOps r db ep false =
  Ok [ {| C := remoteApplicationsC; Id := IdStr (docID (ApplicationName ep));
          Assert := Some [("relationcount", VDoc [("$gt", VInt 0)]);
                          ("life", VLife Alive)];
          Insert := None;
          Update := Some [("$inc", VDoc [("relationcount", VInt (-1))])];
          Remove := false |} ].
Proof. reflexivity. Qed.

Lemma decrement_enqueues_nothing c (op : Op) :
  C op ≠ cleanupsC → Forall (λ op, enqueuesCleanup c op = false) [op].
Proof.
  intros Hc. repeat constructor. apply bool_decide_eq_false_2.
  by intros [? _].
Qed.

Lemma removeLocalEndpointOps_collections c r db ep dep ops :
  dep = "" ∨ inlinedRemovalsDoNotEnqueue c →
  removeLocalEndpointOps r db ep dep = Ok ops →
  Forall (λ op, enqueuesCleanup c op = false) ops.
Proof.
  intros Hc. unfold removeLocalEndpointOps.
  case_bool_decide as Hdep.
  { intros [= <-]. by apply decrement_enqueues_nothing. }
  destruct Hc as [? | [Hloc _]]; [done|].
  destruct (match UnitApplication dep with
            | Some s => bool_decide (s = ApplicationName ep)
            | None => false
            end).
  { intros [= <-]. by apply decrement_enqueues_nothing. }
  destruct (FindOne _ _ _) as [svc | err].
  - apply Hloc.
  - destruct (isMgoErrNotFound err); [|done].
    intros [= <-]. by apply decrement_enqueues_nothing.
Qed.

Lemma removeRemoteEndpointOps_collections c r db ep dep ops :
  dep = "" ∨ inlinedRemovalsDoNotEnqueue c →
  removeRemoteEndpointOps r db ep (bool_decide (dep ≠ "")) = Ok ops →
  Forall (λ op, enqueuesCleanup c op = false) ops.
Proof.
  intros Hc. unfold removeRemoteEndpointOps.
  case_bool_decide as Hdep; cbn [negb].
  2: { intros [= <-]. by apply decrement_enqueues_nothing. }
  destruct Hc as [? | [_ Hrem]]; [done|].
  destruct (FindOne _ _ _) as [svc | err].
  - intros [= <-]. apply Hrem.
  - destruct (isMgoErrNotFound err); [|done].
    intros [= <-]. by apply decrement_enqueues_nothing.
Qed.

(** The endpoint loop only appends to the slice it is given. *)
Lemma removeEndpointsOps_appends c r db ign dep eps :
  ∀ ops result,
    removeEndpointsOps r db ign dep eps ops = Ok result →
    ∃ mid, result = ops ++ mid ∧
      (dep = "" ∨ inlinedRemovalsDoNotEnqueue c →
       Forall (λ op, enqueuesCleanup c op = false) mid).
Proof.
  induction eps as [|ep eps IH]; intros ops result; cbn [removeEndpointsOps].
  - intros [= <-]. exists []. split; [by rewrite app_nil_r | by constructor].
  - case_bool_decide as Hign; [by apply IH|].
    destruct (applicationByName db (ApplicationName ep)) as [app | err];
      [|done].
    destruct (IsRemote app).
    + destruct (removeRemoteEndpointOps _ _ _ _) as [epOps | err] eqn:Hep;
        [|done].
      intros (mid & -> & Hmid)%IH. exists (epOps ++ mid).
      split; [by rewrite app_assoc|].
      intros Hc. apply Forall_app. split; [|by apply Hmid].
      by eapply removeRemoteEndpointOps_collections.
    + destruct (removeLocalEndpointOps _ _ _ _) as [epOps | err] eqn:Hep;
        [|done].
      intros (mid & -> & Hmid)%IH. exists (epOps ++ mid).
      split; [by rewrite app_assoc|].
      intros Hc. apply Forall_app. split; [|by apply Hmid].
      by eapply removeLocalEndpointOps_collections.
Qed.

Lemma filter_enqueuesCleanup_none c (ops : list Op) :
  Forall (λ op, enqueuesCleanup c op = false) ops →
  List.filter (enqueuesCleanup c) ops = [].
Proof.
  induction 1 as [|op ops Hop _ IH]; [done|].
  cbn [List.filter]. by rewrite Hop.
Qed.

(** The cleanup record [removeOps] enqueues for the relation's settings. *)
Lemma removeOps_shape r db ign dep ops :
  removeOps r db ign dep = Ok ops →
  let c := mkCleanupDoc cleanupRelationSettings
             ("r#" +:+ pretty (relId (doc r)) +:+ "#") in
  ∃ mid,
    ops =
      {| C := relationsC; Id := IdStr (relDocID (doc r));
         Assert :=
           Some (if bool_decide (dep ≠ "")
                 then [("life", VLife Dying); ("unitcount", VInt 1)]
                 else [("life", VLife Alive); ("unitcount", VInt 0)]);
         Insert := None; Update := None; Remove := true |}
      :: mid ++
      [ {| C := cleanupsC; Id := IdNewObject; Assert := None;
           Insert := Some c; Update := None; Remove := false |} ] ∧
    (dep = "" ∨ inlinedRemovalsDoNotEnqueue c →
     length (List.filter (enqueuesCleanup c) ops) = 1%nat).
Proof.
  unfold removeOps.
  destruct (removeEndpointsOps _ _ _ _ _ _) as [res0 | err] eqn:Hloop; [|done].
  intros [= <-].
  destruct (removeEndpointsOps_appends
              (mkCleanupDoc cleanupRelationSettings
                 ("r#" +:+ pretty (relId (doc r)) +:+ "#"))
              _ _ _ _ _ _ _ Hloop) as (mid & -> & Hmid).
  exists mid. split; [by rewrite <- app_assoc|].
  intros Hc. rewrite !List.filter_app.
  rewrite (filter_enqueuesCleanup_none _ mid) by auto.
  cbn [List.filter app]. unfold enqueuesCleanup.
  rewrite bool_decide_eq_false_2 by (by intros [? _]).
  rewrite bool_decide_eq_true_2 by done. reflexivity.
Qed.

(** With no departing unit, [removeOps] fails only on a failing store or
    an endpoint whose application is unknown. *)
Lemma removeEndpointsOps_no_departing_succeeds r db ign eps :
  fault db = None →
  (∀ ep, ep ∈ eps →
     ApplicationName ep = ign ∨
     is_Some (applications db !! docID (ApplicationName ep)) ∨
     is_Some (remoteApplications db !! docID (ApplicationName ep))) →
  ∀ ops, ∃ result, removeEndpointsOps r db ign "" eps ops = Ok result.
Proof.
  intros Hf. induction eps as [|ep eps IH]; intros Hknown ops;
    cbn [removeEndpointsOps]; [by eexists|].
  assert (∀ ops', ∃ result,
            removeEndpointsOps r db ign "" eps ops' = Ok result) as Hrest.
  { apply IH. intros ep' Hin. apply Hknown. by right. }
  case_bool_decide as Hign; [apply Hrest|].
  unfold applicationByName. rewrite !FindId_ok by done.
  destruct (Hknown ep) as [? | Hsome]; [by left | done |].
  destruct (remoteApplications db !! docID (ApplicationName ep)) as [rd|].
  - cbn [IsRemote].
    rewrite bool_decide_eq_false_2 by (intros Hne; by apply Hne).
    rewrite removeRemoteEndpointOps_not_dying. apply Hrest.
  - cbn [isMgoErrNotFound].
    destruct Hsome as [[ad Had] | [? ?]]; [|done].
    rewrite Had. cbn [IsRemote].
    rewrite removeLocalEndpointOps_no_departing. apply Hrest.
Qed.

(** C1. The operation set of [removeOps] starts with the removal of the
    relation's own document and ends with the cleanup record for the
    relation's settings.  With no departing unit the self-removal asserts
    [life == Alive] and [unitcount == 0], the set is what [destroyOps]
    returns for an Alive snapshot with no units, and it enqueues that
    cleanup record exactly once; with a departing unit the self-removal
    asserts [life == Dying] and [unitcount == 1], and the record is
    enqueued exactly once as long as the inlined application removals do
    not enqueue it themselves. *)
Theorem removeOps_self_removal_and_cleanup (r : Relation) (db : Database)
    (ignoreService departingUnitName : string) (ops : list Op) :
  removeOps r db ignoreService departingUnitName = Ok ops →
  let selfRemove (cond : D) :=
    {| C := relationsC; Id := IdStr (relDocID (doc r)); Assert := Some cond;
       Insert := None; Update := None; Remove := true |} in
  let c := mkCleanupDoc cleanupRelationSettings
             ("r#" +:+ pretty (relId (doc r)) +:+ "#") in
  let cleanupOp := newCleanupOp (cleanupKindOf c) (cleanupPrefix c) in
  (departingUnitName = "" →
     (∃ mid, ops = selfRemove [("life", VLife Alive); ("unitcount", VInt 0)]
                   :: mid ++ [cleanupOp]) ∧
     length (List.filter (enqueuesCleanup c) ops) = 1%nat ∧
     (relLife (doc r) = Alive → relUnitCount (doc r) = 0 →
      destroyOps r db ignoreService = Ok (ops, true))) ∧
  (departingUnitName ≠ "" →
     (∃ mid, ops = selfRemove [("life", VLife Dying); ("unitcount", VInt 1)]
                   :: mid ++ [cleanupOp]) ∧
     (inlinedRemovalsDoNotEnqueue c →
      length (List.filter (enqueuesCleanup c) ops) = 1%nat)).
Proof.
  intros Hops selfRemove c cleanupOp.
  destruct (removeOps_shape _ _ _ _ _ Hops) as (mid & Hshape & Hcount).
  split; intros Hdep.
  - rewrite bool_decide_eq_false_2 in Hshape
      by (intros Hne; by apply Hne).
    split; [by exists mid|]. split; [by apply Hcount; left|].
    intros Hlife Hunits. unfold destroyOps.
    rewrite Hlife, Hunits.
    rewrite bool_decide_eq_false_2 by (intros Hne; by apply Hne).
    rewrite bool_decide_eq_true_2 by done.
    subst departingUnitName. by rewrite Hops.
  - rewrite bool_decide_eq_true_2 in Hshape by done.
    split; [by exists mid|]. intros Hin. apply Hcount. by right.
Qed.

(** [destroyOps] and [removeOps] with no departing unit succeed on a
    healthy store that knows the applications of all endpoints. *)
Lemma destroyOps_no_units_succeeds r db ign :
  relLife (doc r) = Alive → relUnitCount (doc r) = 0 →
  fault db = None →
  (∀ ep, ep ∈ relEndpoints (doc r) →
     ApplicationName ep = ign ∨
     is_Some (applications db !! docID (ApplicationName ep)) ∨
     is_Some (remoteApplications db !! docID (ApplicationName ep))) →
  ∃ ops, removeOps r db ign "" = Ok ops ∧
         destroyOps r db ign = Ok (ops, true).
Proof.
  intros Hlife Hunits Hf Hknown.
  destruct (removeEndpointsOps_no_departing_succeeds r db ign
              (relEndpoints (doc r)) Hf Hknown
              [ {| C := relationsC; Id := IdStr (relDocID (doc r));
                   Assert := Some [("life", VLife Alive);
                                   ("unitcount", VInt 0)];
                   Insert := None; Update := None; Remove := true |} ])
    as [result Hres].
  assert (∃ ops, removeOps r db ign "" = Ok ops) as [ops Hrem].
  { unfold removeOps.
    rewrite bool_decide_eq_false_2 by (intros Hne; by apply Hne).
    rewrite Hres. by eexists. }
  exists ops. split; [done|].
  unfold destroyOps. by rewrite Hlife, Hunits, Hrem.
Qed.

(** ** [Destroy] *)

Lemma destroyOps_not_alive r db ign :
  relLife (doc r) ≠ Alive → destroyOps r db ign = Err errAlreadyDying.
Proof. intros Hl. unfold destroyOps. by rewrite bool_decide_eq_true_2. Qed.

Lemma Destroy_buildOps_not_alive rel db :
  relLife (doc rel) ≠ Alive → Destroy_buildOps rel db = Err ErrNoOperations.
Proof.
  intros Hl. unfold Destroy_buildOps. by rewrite destroyOps_not_alive.
Qed.

Lemma Destroy_buildTxn_first rel db :
  Destroy_buildTxn 0 rel db = (Destroy_buildOps rel db, rel).
Proof. reflexivity. Qed.

Lemma isSolePeer_true r :
  isSolePeer r = true ↔
  ∃ ep, relEndpoints (doc r) = [ep] ∧ Role ep = RolePeer.
Proof.
  unfold isSolePeer. destruct (relEndpoints (doc r)) as [|ep [|ep' eps]].
  - split; [done | by intros (? & ? & ?)].
  - rewrite bool_decide_eq_true. split.
    + intros Hr. by exists ep.
    + by intros (? & [= <-] & ?).
  - split; [done | by intros (? & ? & ?)].
Qed.

(** What a successful [Destroy] tells about its input and its result. *)
Lemma Destroy_success_inv
    (run : ∀ St : Type,
       (nat → St → Database → res (list Op) * St) →
       St → Database → option error * St * Database)
    (r r' : Relation) (db db' : Database) :
  Destroy run r db = (None, r', db') →
  isSolePeer r = false ∧ r' = mkRelation (setLife Dying (doc r)) ∧
  ∃ rel', run Relation Destroy_buildTxn (mkRelation (doc r)) db
          = (None, rel', db').
Proof.
  unfold Destroy. destruct (isSolePeer r); [done|].
  destruct (run _ _ _ _) as [[[err|] rel'] db1]; [done|].
  intros [= <- <-]. eauto.
Qed.

(** C6. A relation with exactly one endpoint, of role peer, is refused by
    [Destroy] at once: whatever the transaction runner, the call returns
    the annotated "is a peer relation" error and leaves the caller's
    snapshot and the database as they were, so no transaction is built,
    submitted or retried. *)
Theorem Destroy_sole_peer
    (run : ∀ St : Type,
       (nat → St → Database → res (list Op) * St) →
       St → Database → option error * St * Database)
    (r : Relation) (db : Database) (ep : Endpoint) :
  relEndpoints (doc r) = [ep] →
  Role ep = RolePeer →
  Destroy run r db =
    (Some (Annotatef (Errorf "is a peer relation" [])
             "cannot destroy relation %q" [String_ r]), r, db).
Proof.
  intros Heps Hrole. unfold Destroy.
  assert (isSolePeer r = true) as ->; [|done].
  apply isSolePeer_true. by exists ep.
Qed.

(** C10. Whenever [Destroy] returns no error, the caller's snapshot is
    the one it had with [life] set to Dying, whatever the runner did:
    never Dead and never still Alive. *)
Theorem Destroy_success_life_Dying
    (run : ∀ St : Type,
       (nat → St → Database → res (list Op) * St) →
       St → Database → option error * St * Database)
    (r r' : Relation) (db db' : Database) :
  Destroy run r db = (None, r', db') →
  relLife (doc r') = Dying ∧ r' = mkRelation (setLife Dying (doc r)).
Proof.
  unfold Destroy. destruct (isSolePeer r); [done|].
  destruct (run _ _ _ _) as [[[err|] rel'] db1]; [done|].
  by intros [= <- <-].
Qed.

(** A failed [Destroy] leaves the caller's snapshot untouched. *)
Lemma Destroy_failure_keeps_snapshot
    (run : ∀ St : Type,
       (nat → St → Database → res (list Op) * St) →
       St → Database → option error * St * Database)
    (r r' : Relation) (db db' : Database) err :
  Destroy run r db = (Some err, r', db') → r' = r.
Proof.
  unfold Destroy. destruct (isSolePeer r); [by intros [= _ <- _]|].
  destruct (run _ _ _ _) as [[[e|] rel'] db1]; [|done].
  by intros [= _ <- _].
Qed.

Lemma Destroy_not_alive budget r db :
  relLife (doc r) ≠ Alive → isSolePeer r = false → (0 < budget)%nat →
  Destroy (txnRun budget) r db = (None, mkRelation (setLife Dying (doc r)), db).
Proof.
  intros Hl Hp Hb. unfold Destroy, txnRun. rewrite Hp.
  destruct budget as [|budget]; [lia|]. cbn [runLoop].
  rewrite Destroy_buildTxn_first, Destroy_buildOps_not_alive by done.
  reflexivity.
Qed.

(** C3, amended. A snapshot that is Dying or Dead makes [destroyOps]
    return no operations and the already-dying signal.  Unless the
    relation is a single-endpoint peer relation, [Destroy] (with a
    non-empty retry budget) takes that as success: no error, the store
    unchanged.  And after any [Destroy] that returned no error, a second
    call returns no error and leaves the snapshot and the store as the
    first call left them. *)
Theorem Destroy_already_dying_is_noop (budget : nat) (r : Relation)
    (db : Database) :
  (relLife (doc r) ≠ Alive →
   (∀ ignoreService, destroyOps r db ignoreService = Err errAlreadyDying) ∧
   (isSolePeer r = false → (0 < budget)%nat →
    Destroy (txnRun budget) r db =
      (None, mkRelation (setLife Dying (doc r)), db))) ∧
  (∀ r1 db1,
     Destroy (txnRun budget) r db = (None, r1, db1) →
     Destroy (txnRun budget) r1 db1 = (None, r1, db1)).
Proof.
  split.
  - intros Hl. split.
    + intros ign. by apply destroyOps_not_alive.
    + intros Hp Hb. by apply Destroy_not_alive.
  - intros r1 db1 Hfirst.
    destruct (Destroy_success_inv _ _ _ _ _ Hfirst) as (Hp & -> & rel' & Hrun).
    assert (0 < budget)%nat as Hb.
    { destruct budget; [|lia]. by unfold txnRun in Hrun. }
    rewrite Destroy_not_alive; [done | by cbn | done | done].
Qed.

(** ** The transaction builder of [Destroy] *)

Lemma applicationByName_setRelations f db name :
  applicationByName (setRelations f db) name = applicationByName db name.
Proof. reflexivity. Qed.

Lemma removeEndpointsOps_setRelations f r db ign eps :
  ∀ ops,
    removeEndpointsOps r (setRelations f db) ign "" eps ops =
    removeEndpointsOps r db ign "" eps ops.
Proof.
  induction eps as [|ep eps IH]; intros ops; cbn [removeEndpointsOps];
    [done|].
  case_bool_decide; [apply IH|].
  rewrite applicationByName_setRelations.
  destruct (applicationByName db (ApplicationName ep)) as [app|]; [|done].
  rewrite (bool_decide_eq_false_2 ("" ≠ "")) by (intros Hne; by apply Hne).
  rewrite !removeRemoteEndpointOps_not_dying.
  rewrite !removeLocalEndpointOps_no_departing.
  destruct (IsRemote app); apply IH.
Qed.

(** Building the operations reads the snapshot, never the stored relation
    document. *)
Lemma Destroy_buildOps_setRelations f rel db :
  Destroy_buildOps rel (setRelations f db) = Destroy_buildOps rel db.
Proof.
  unfold Destroy_buildOps, destroyOps, removeOps.
  by rewrite removeEndpointsOps_setRelations.
Qed.

(** Every operation set [Destroy] builds from a snapshot starts with an
    assertion on the relation's own document, so it aborts when that
    document is gone. *)
Lemma Destroy_buildOps_aborts_when_missing rel db ops :
  Destroy_buildOps rel db = Ok ops →
  relations db !! relDocID (doc rel) = None →
  ops ≠ [] ∧ applyOps db ops = None.
Proof.
  unfold Destroy_buildOps, destroyOps. intros Hops Hnone.
  case_bool_decide as Hl; [done|].
  case_bool_decide as Hu.
  - destruct (removeOps rel db "" "") as [ops'|e] eqn:Hrem;
      [|by destruct (isErrAlreadyDying e)].
    injection Hops as <-.
    destruct (removeOps_shape _ _ _ _ _ Hrem) as (mid & -> & _).
    split; [done|].
    unfold applyOps. cbn [forallb]. unfold assertHolds at 1, opFields.
    cbn [Assert Id C]. by rewrite Hnone.
  - injection Hops as <-. split; [done|].
    unfold applyOps. cbn [forallb]. unfold assertHolds at 1, opFields.
    cbn [Assert Id C]. by rewrite Hnone.
Qed.

Lemma Refresh_not_found_unchanged rel db err rel' :
  Refresh rel db = (Some err, rel') → rel' = rel.
Proof.
  unfold Refresh. destruct (FindId _ _ _) as [d|e].
  - case_bool_decide; by intros [= _ <-].
  - destruct (isMgoErrNotFound e); by intros [= _ <-].
Qed.

(** C7. The transaction builder of [Destroy] does not refresh on the
    first attempt: it builds from the snapshot it holds and its result
    does not depend on the stored relation documents.  On every later
    attempt it refreshes first and builds from the stored document.  When
    that refresh reports not-found the builder returns the empty operation
    set, on which the runner stops with success and an unchanged store; so
    a [Destroy] whose first attempt aborts because the relation document
    is gone returns no error. *)
Theorem Destroy_buildTxn_refreshes_after_first_attempt (rel : Relation)
    (db : Database) :
  (Destroy_buildTxn 0 rel db = (Destroy_buildOps rel db, rel) ∧
   ∀ f, Destroy_buildTxn 0 rel (setRelations f db) = Destroy_buildTxn 0 rel db) ∧
  (∀ attempt d,
     (0 < attempt)%nat → fault db = None →
     relations db !! relDocID (doc rel) = Some d →
     relId d = relId (doc rel) →
     Destroy_buildTxn attempt rel db =
       (Destroy_buildOps (mkRelation d) db, mkRelation d)) ∧
  (∀ attempt err rel',
     (0 < attempt)%nat →
     Refresh rel db = (Some err, rel') → IsNotFound err = true →
     Destroy_buildTxn attempt rel db = (Ok [], rel) ∧
     ∀ budget,
       runLoop (S budget) attempt Destroy_buildTxn rel db = (None, rel, db)) ∧
  (∀ budget ops,
     fault db = None → isSolePeer rel = false →
     relations db !! relDocID (doc rel) = None →
     Destroy_buildOps rel db = Ok ops →
     Destroy (txnRun (S (S budget))) rel db =
       (None, mkRelation (setLife Dying (doc rel)), db)).
Proof.
  split; [split|split; [|split]].
  - reflexivity.
  - intros f. unfold Destroy_buildTxn.
    rewrite bool_decide_eq_false_2 by lia.
    by rewrite Destroy_buildOps_setRelations.
  - intros attempt d Ha Hf Hd Hid. unfold Destroy_buildTxn.
    rewrite bool_decide_eq_true_2 by done.
    by rewrite (Refresh_ok _ _ d).
  - intros attempt err rel' Ha Href Hnf.
    assert (Destroy_buildTxn attempt rel db = (Ok [], rel)) as Hbuild.
    { unfold Destroy_buildTxn. rewrite bool_decide_eq_true_2 by done.
      rewrite Href, Hnf. by rewrite (Refresh_not_found_unchanged _ _ _ _ Href). }
    split; [done|]. intros budget. cbn [runLoop]. by rewrite Hbuild.
  - intros budget ops Hf Hp Hnone Hops.
    destruct (Destroy_buildOps_aborts_when_missing _ _ _ Hops Hnone)
      as [Hne Habort].
    unfold Destroy, txnRun. rewrite Hp. destruct rel as [d]. cbn [doc] in *.
    cbn [runLoop]. rewrite Destroy_buildTxn_first, Hops.
    destruct ops as [|op ops]; [done|]. rewrite Hf, Habort.
    unfold Destroy_buildTxn. rewrite bool_decide_eq_true_2 by lia.
    rewrite Refresh_missing by done. reflexivity.
Qed.

(** ** Endpoint operations *)

(** The query for a removable local application, in terms of the stored
    document. *)
Lemma FindOne_local_removable db name :
  fault db = None →
  FindOne (applications db) db
    ([("_id", VStr name)] ++
     [("life", VLife Dying); ("unitcount", VInt 0); ("relationcount", VInt 1)])
  = match applications db !! docID name with
    | Some svc =>
        if bool_decide (appLife svc = Dying) &&
           (bool_decide (appUnitCount svc = 0) &&
            bool_decide (appRelationCount svc = 1))
        then Ok svc else Err mgoErrNotFound
    | None => Err mgoErrNotFound
    end.
Proof.
  intros Hf. unfold FindOne. rewrite Hf. cbn [app].
  destruct (applications db !! docID name) as [svc|]; [|done].
  by autorewrite with cond.
Qed.

Lemma FindOne_remote_removable db name :
  fault db = None →
  FindOne (remoteApplications db) db
    ([("_id", VStr name)] ++
     [("life", VLife Dying); ("relationcount", VInt 1)])
  = match remoteApplications db !! docID name with
    | Some svc =>
        if bool_decide (rappLife svc = Dying) &&
           bool_decide (rappRelationCount svc = 1)
        then Ok svc else Err mgoErrNotFound
    | None => Err mgoErrNotFound
    end.
Proof.
  intros Hf. unfold FindOne. rewrite Hf. cbn [app].
  destruct (remoteApplications db !! docID name) as [svc|]; [|done].
  by autorewrite with cond.
Qed.

(** A query that answers at all answered on a healthy store. *)
Lemma FindOne_found_healthy {A} `{Document A} (coll : gmap string A) db sel d :
  FindOne coll db sel = Ok d → fault db = None.
Proof. unfold FindOne. by destruct (fault db). Qed.

Lemma FindOne_not_found_healthy {A} `{Document A} (coll : gmap string A)
    db sel err :
  FindOne coll db sel = Err err → isMgoErrNotFound err = true →
  fault db = None.
Proof.
  unfold FindOne. destruct (fault db); [|done].
  by intros [= <-].
Qed.

(** What the assertions of the decrement operations say about a document. *)
Lemma hasRelation_and_alive_positive fields :
  matches fields [("relationcount", VDoc [("$gt", VInt 0)]);
                  ("life", VLife Alive)] = true →
  ∃ n, fields "relationcount" = Some (VInt n) ∧ 0 < n.
Proof.
  autorewrite with cond. intros [Hgt _]%andb_true_iff.
  destruct (fields "relationcount") as [[n| | | |]|]; try done.
  exists n. split; [done|]. by apply bool_decide_eq_true in Hgt.
Qed.

Lemma hasRelation_and_units_positive fields :
  matches fields [("relationcount", VDoc [("$gt", VInt 0)]);
                  ("unitcount", VDoc [("$gt", VInt 0)])] = true →
  ∃ n, fields "relationcount" = Some (VInt n) ∧ 0 < n.
Proof.
  autorewrite with cond. intros [Hgt _]%andb_true_iff.
  destruct (fields "relationcount") as [[n| | | |]|]; try done.
  exists n. split; [done|]. by apply bool_decide_eq_true in Hgt.
Qed.

Lemma field_equals (fields : string → option bval) name (v : bval) :
  (match fields name with
   | Some w => scalarEq w v
   | None => false
   end) = true →
  fields name = Some v.
Proof.
  destruct (fields name) as [w|]; [|done].
  destruct w, v; cbn [scalarEq]; try done;
    intros ->%bool_decide_eq_true; done.
Qed.

Lemma field_greater (fields : string → option bval) name (k : Z) :
  compareGt (fields name) (VInt k) = true ↔
  ∃ n, fields name = Some (VInt n) ∧ k < n.
Proof.
  destruct (fields name) as [[n| | | |]|]; cbn [compareGt];
    try (split; [done | by intros (? & ? & ?)]).
  rewrite bool_decide_eq_true. split.
  - intros Hn. by exists n.
  - by intros (? & [= <-] & ?).
Qed.

(** The disjunction asserted after the removability query of a local
    application. *)
Lemma notRemovable_local fields :
  matches fields
    [("$or", VDocs [ [("life", VLife Alive)];
                     [("unitcount", VDoc [("$gt", VInt 0)])];
                     [("relationcount", VDoc [("$gt", VInt 1)])] ])] = true ↔
  fields "life" = Some (VLife Alive) ∨
  (∃ n, fields "unitcount" = Some (VInt n) ∧ 0 < n) ∨
  (∃ n, fields "relationcount" = Some (VInt n) ∧ 1 < n).
Proof.
  autorewrite with cond. cbn [existsb].
  autorewrite with cond.
  rewrite !orb_true_iff, !field_greater. split.
  - intros [Hl | [Hu | Hr]]; [left | right; by left | right; by right].
    by apply field_equals.
  - intros [Hl | [Hu | Hr]]; [left | right; by left | right; by right].
    rewrite Hl. by autorewrite with cond.
Qed.

(** The disjunction asserted after the removability query of a remote
    application. *)
Lemma notRemovable_remote fields :
  matches fields
    [("$or", VDocs [ [("life", VLife Alive)];
                     [("relationcount", VDoc [("$gt", VInt 1)])] ])] = true ↔
  fields "life" = Some (VLife Alive) ∨
  (∃ n, fields "relationcount" = Some (VInt n) ∧ 1 < n).
Proof.
  autorewrite with cond. cbn [existsb].
  autorewrite with cond.
  rewrite !orb_true_iff, !field_greater. split.
  - intros [Hl | Hr]; [left | by right].
    by apply field_equals.
  - intros [Hl | Hr]; [left | by right].
    rewrite Hl. by autorewrite with cond.
Qed.

Lemma matches_localLastRef fields :
  matches fields [("life", VLife Dying); ("unitcount", VInt 0);
                  ("relationcount", VInt 1)] = true →
  fields "life" = Some (VLife Dying) ∧
  fields "unitcount" = Some (VInt 0) ∧
  fields "relationcount" = Some (VInt 1).
Proof.
  autorewrite with cond.
  intros [Hl [Hu Hr]%andb_true_iff]%andb_true_iff.
  auto using field_equals.
Qed.

Lemma matches_remoteLastRef fields :
  matches fields [("life", VLife Dying); ("relationcount", VInt 1)] = true →
  fields "life" = Some (VLife Dying) ∧
  fields "relationcount" = Some (VInt 1).
Proof.
  autorewrite with cond. intros [Hl Hr]%andb_true_iff.
  auto using field_equals.
Qed.

Lemma units_exclude_localLastRef fields :
  matches fields [("relationcount", VDoc [("$gt", VInt 0)]);
                  ("unitcount", VDoc [("$gt", VInt 0)])] = true →
  matches fields [("life", VLife Dying); ("unitcount", VInt 0);
                  ("relationcount", VInt 1)] = false.
Proof.
  intros Hc. autorewrite with cond in Hc.
  apply andb_true_iff in Hc as [_ Hu].
  apply field_greater in Hu as (n & Hn & Hpos).
  apply not_true_is_false.
  intros (_ & Hu & _)%matches_localLastRef. rewrite Hn in Hu.
  injection Hu as ->. lia.
Qed.

Lemma notRemovable_excludes_localLastRef fields :
  matches fields
    [("$or", VDocs [ [("life", VLife Alive)];
                     [("unitcount", VDoc [("$gt", VInt 0)])];
                     [("relationcount", VDoc [("$gt", VInt 1)])] ])] = true →
  matches fields [("life", VLife Dying); ("unitcount", VInt 0);
                  ("relationcount", VInt 1)] = false.
Proof.
  intros Hor%notRemovable_local. apply not_true_is_false.
  intros (Hl & Hu & Hr)%matches_localLastRef.
  destruct Hor as [Ha | [(n & Hn & ?) | (n & Hn & ?)]].
  - rewrite Hl in Ha. done.
  - rewrite Hu in Hn. injection Hn as <-. lia.
  - rewrite Hr in Hn. injection Hn as <-. lia.
Qed.

Lemma notRemovable_excludes_remoteLastRef fields :
  matches fields
    [("$or", VDocs [ [("life", VLife Alive)];
                     [("relationcount", VDoc [("$gt", VInt 1)])] ])] = true →
  matches fields [("life", VLife Dying); ("relationcount", VInt 1)] = false.
Proof.
  intros Hor%notRemovable_remote. apply not_true_is_false.
  intros (Hl & Hr)%matches_remoteLastRef.
  destruct Hor as [Ha | (n & Hn & ?)].
  - rewrite Hl in Ha. done.
  - rewrite Hr in Hn. injection Hn as <-. lia.
Qed.

(** C5. While a departing unit's removal is built, the endpoint builders
    inline the application's own removal operations when the store holds
    the application in the removable state (local: Dying, no units, one
    relation; remote: Dying, one relation) and the query is made; every
    other result is a single decrement of [relationcount] on the
    application's document whose assertion no removable document
    satisfies, and it is emitted only when the query found nothing or,
    for the departing unit's own application, was not made. *)
Theorem endpoint_ops_inline_or_guarded_decrement (r : Relation)
    (db : Database) (ep : Endpoint) (departingUnitName : string) :
  departingUnitName ≠ "" →
  let name := ApplicationName ep in
  let localLastRef : D :=
    [("life", VLife Dying); ("unitcount", VInt 0);
     ("relationcount", VInt 1)] in
  let remoteLastRef : D :=
    [("life", VLife Dying); ("relationcount", VInt 1)] in
  let localRemovable (svc : applicationDoc) :=
    appLife svc = Dying ∧ appUnitCount svc = 0 ∧ appRelationCount svc = 1 in
  let remoteRemovable (svc : remoteApplicationDoc) :=
    rappLife svc = Dying ∧ rappRelationCount svc = 1 in
  (∀ svc,
     fault db = None → UnitApplication departingUnitName ≠ Some name →
     applications db !! docID name = Some svc → localRemovable svc →
     removeLocalEndpointOps r db ep departingUnitName =
       applicationRemoveOps db svc localLastRef) ∧
  (∀ ops,
     removeLocalEndpointOps r db ep departingUnitName = Ok ops →
     (∃ svc, applications db !! docID name = Some svc ∧ localRemovable svc ∧
             applicationRemoveOps db svc localLastRef = Ok ops) ∨
     (∃ op, ops = [op] ∧ C op = applicationsC ∧
            Id op = IdStr (docID name) ∧
            decrementsRelationCount op = true ∧ excludes op localLastRef ∧
            (UnitApplication departingUnitName = Some name ∨
             ∀ svc, applications db !! docID name = Some svc →
                    ¬ localRemovable svc))) ∧
  (∀ svc,
     fault db = None →
     remoteApplications db !! docID name = Some svc → remoteRemovable svc →
     removeRemoteEndpointOps r db ep true =
       Ok (remoteApplicationRemoveOps svc remoteLastRef)) ∧
  (∀ ops,
     removeRemoteEndpointOps r db ep true = Ok ops →
     (∃ svc, remoteApplications db !! docID name = Some svc ∧
             remoteRemovable svc ∧
             ops = remoteApplicationRemoveOps svc remoteLastRef) ∨
     (∃ op, ops = [op] ∧ C op = remoteApplicationsC ∧
            Id op = IdStr (docID name) ∧
            decrementsRelationCount op = true ∧ excludes op remoteLastRef ∧
            ∀ svc, remoteApplications db !! docID name = Some svc →
                   ¬ remoteRemovable svc)) ∧
  (UnitApplication departingUnitName = Some name ∨
   (fault db = None ∧
    ∀ svc, applications db !! docID name = Some svc → ¬ localRemovable svc) →
   ∃ op, removeLocalEndpointOps r db ep departingUnitName = Ok [op] ∧
         decrementsRelationCount op = true) ∧
  (fault db = None →
   (∀ svc, remoteApplications db !! docID name = Some svc →
           ¬ remoteRemovable svc) →
   ∃ op, removeRemoteEndpointOps r db ep true = Ok [op] ∧
         decrementsRelationCount op = true).
Proof.
  intros Hdep name localLastRef remoteLastRef localRemovable remoteRemovable.
  subst name localLastRef remoteLastRef localRemovable remoteRemovable.
  cbv beta. split; [|split; [|split; [|split; [|split]]]].
  - intros svc Hf Hother Hsvc (Hl & Hu & Hr).
    unfold removeLocalEndpointOps.
    rewrite bool_decide_eq_false_2 by done.
    destruct (UnitApplication departingUnitName) as [s|] eqn:Hs.
    + rewrite bool_decide_eq_false_2 by congruence.
      rewrite FindOne_local_removable, Hsvc by done.
      by rewrite !bool_decide_eq_true_2.
    + rewrite FindOne_local_removable, Hsvc by done.
      by rewrite !bool_decide_eq_true_2.
  - intros ops. unfold removeLocalEndpointOps.
    rewrite bool_decide_eq_false_2 by done.
    destruct (match UnitApplication departingUnitName with
              | Some s => bool_decide (s = ApplicationName ep)
              | None => false
              end) eqn:Hown.
    { intros [= <-]. right. eexists. repeat split.
      - eexists. split; [done|]. apply units_exclude_localLastRef.
      - left. destruct (UnitApplication departingUnitName); [|done].
        by apply bool_decide_eq_true in Hown as ->. }
    destruct (FindOne _ _ _) as [svc|err] eqn:Hfind.
    + intros Hrm. left. exists svc.
      pose proof (FindOne_found_healthy _ _ _ _ Hfind) as Hf.
      rewrite FindOne_local_removable in Hfind by done.
      destruct (applications db !! docID (ApplicationName ep)) as [svc'|];
        [|done].
      destruct (bool_decide (appLife svc' = Dying)) eqn:E1; [|done].
      destruct (bool_decide (appUnitCount svc' = 0)) eqn:E2; [|done].
      destruct (bool_decide (appRelationCount svc' = 1)) eqn:E3; [|done].
      injection Hfind as ->.
      apply bool_decide_eq_true in E1, E2, E3. done.
    + destruct (isMgoErrNotFound err) eqn:Hnf; [|done].
      intros [= <-]. right. eexists. repeat split.
      * eexists. split; [done|]. apply notRemovable_excludes_localLastRef.
      * right. intros svc Hsvc (Hl & Hu & Hr).
        pose proof (FindOne_not_found_healthy _ _ _ _ Hfind Hnf) as Hf.
        rewrite FindOne_local_removable, Hsvc in Hfind by done.
        by rewrite !bool_decide_eq_true_2 in Hfind.
  - intros svc Hf Hsvc (Hl & Hr). unfold removeRemoteEndpointOps.
    cbn [negb]. rewrite FindOne_remote_removable, Hsvc by done.
    by rewrite !bool_decide_eq_true_2.
  - intros ops. unfold removeRemoteEndpointOps. cbn [negb].
    destruct (FindOne _ _ _) as [svc|err] eqn:Hfind.
    + intros [= <-]. left. exists svc.
      pose proof (FindOne_found_healthy _ _ _ _ Hfind) as Hf.
      rewrite FindOne_remote_removable in Hfind by done.
      destruct (remoteApplications db !! docID (ApplicationName ep))
        as [svc'|]; [|done].
      destruct (bool_decide (rappLife svc' = Dying)) eqn:E1; [|done].
      destruct (bool_decide (rappRelationCount svc' = 1)) eqn:E2; [|done].
      injection Hfind as ->.
      apply bool_decide_eq_true in E1, E2. done.
    + destruct (isMgoErrNotFound err) eqn:Hnf; [|done].
      intros [= <-]. right. eexists. repeat split.
      * eexists. split; [done|]. apply notRemovable_excludes_remoteLastRef.
      * intros svc Hsvc (Hl & Hr).
        pose proof (FindOne_not_found_healthy _ _ _ _ Hfind Hnf) as Hf.
        rewrite FindOne_remote_removable, Hsvc in Hfind by done.
        by rewrite !bool_decide_eq_true_2 in Hfind.
  - intros Hcase. unfold removeLocalEndpointOps.
    rewrite bool_decide_eq_false_2 by done.
    destruct Hcase as [Hown | [Hf Hnot]].
    { rewrite Hown, bool_decide_eq_true_2 by done. by eexists. }
    destruct (match UnitApplication departingUnitName with
              | Some s => bool_decide (s = ApplicationName ep)
              | None => false
              end); [by eexists|].
    rewrite FindOne_local_removable by done.
    destruct (applications db !! docID (ApplicationName ep)) as [svc|] eqn:Hsvc;
      [|by eexists].
    destruct (bool_decide (appLife svc = Dying)) eqn:E1; [|by eexists].
    destruct (bool_decide (appUnitCount svc = 0)) eqn:E2; [|by eexists].
    destruct (bool_decide (appRelationCount svc = 1)) eqn:E3; [|by eexists].
    apply bool_decide_eq_true in E1, E2, E3. by destruct (Hnot svc).
  - intros Hf Hnot. unfold removeRemoteEndpointOps. cbn [negb].
    rewrite FindOne_remote_removable by done.
    destruct (remoteApplications db !! docID (ApplicationName ep))
      as [svc|] eqn:Hsvc; [|by eexists].
    destruct (bool_decide (rappLife svc = Dying)) eqn:E1; [|by eexists].
    destruct (bool_decide (rappRelationCount svc = 1)) eqn:E2; [|by eexists].
    apply bool_decide_eq_true in E1, E2. by destruct (Hnot svc).
Qed.

(** C4, amended. The decrement of [relationcount] that the endpoint
    builders emit with no departing unit, or (local) for the departing
    unit's own application, asserts [relationcount > 0].  After the
    removability query, what is returned is the inlined removal set or one
    decrement whose assertion is the disjunction [life == Alive],
    [unitcount > 0] or [relationcount > 1] (remote: [life == Alive] or
    [relationcount > 1]). *)
Theorem decrement_assertions (r : Relation) (db : Database) (ep : Endpoint) :
  let name := ApplicationName ep in
  (∀ dep, dep = "" ∨ UnitApplication dep = Some name →
     ∃ op, removeLocalEndpointOps r db ep dep = Ok [op] ∧
           decrementsRelationCount op = true ∧
           guardsPositiveRelationCount op) ∧
  (∃ op, removeRemoteEndpointOps r db ep false = Ok [op] ∧
         decrementsRelationCount op = true ∧
         guardsPositiveRelationCount op) ∧
  (∀ dep ops,
     dep ≠ "" → UnitApplication dep ≠ Some name →
     removeLocalEndpointOps r db ep dep = Ok ops →
     (∃ svc asserts, applicationRemoveOps db svc asserts = Ok ops) ∨
     (∃ op cond, ops = [op] ∧ decrementsRelationCount op = true ∧
        Assert op = Some cond ∧
        ∀ fields, matches fields cond = true ↔
          fields "life" = Some (VLife Alive) ∨
          (∃ n, fields "unitcount" = Some (VInt n) ∧ 0 < n) ∨
          (∃ n, fields "relationcount" = Some (VInt n) ∧ 1 < n))) ∧
  (∀ ops,
     removeRemoteEndpointOps r db ep true = Ok ops →
     (∃ svc asserts, ops = remoteApplicationRemoveOps svc asserts) ∨
     (∃ op cond, ops = [op] ∧ decrementsRelationCount op = true ∧
        Assert op = Some cond ∧
        ∀ fields, matches fields cond = true ↔
          fields "life" = Some (VLife Alive) ∨
          (∃ n, fields "relationcount" = Some (VInt n) ∧ 1 < n))).
Proof.
  intros name. subst name. split; [|split; [|split]].
  - intros dep Hdep. unfold removeLocalEndpointOps.
    case_bool_decide as He.
    + eexists. split; [done|]. split; [done|].
      eexists. split; [done|]. apply hasRelation_and_alive_positive.
    + destruct Hdep as [? | Hown]; [done|]. rewrite Hown.
      rewrite bool_decide_eq_true_2 by done.
      eexists. split; [done|]. split; [done|].
      eexists. split; [done|]. apply hasRelation_and_units_positive.
  - eexists. split; [done|]. split; [done|].
    eexists. split; [done|]. apply hasRelation_and_alive_positive.
  - intros dep ops Hdep Hother. unfold removeLocalEndpointOps.
    rewrite bool_decide_eq_false_2 by done.
    assert (match UnitApplication dep with
            | Some s => bool_decide (s = ApplicationName ep)
            | None => false
            end = false) as ->.
    { destruct (UnitApplication dep); [|done].
      apply bool_decide_eq_false_2. congruence. }
    destruct (FindOne _ _ _) as [svc|err].
    + intros Hrm. left. by eexists _, _.
    + destruct (isMgoErrNotFound err); [|done].
      intros [= <-]. right. eexists _, _.
      split; [done|]. split; [done|]. split; [done|].
      apply notRemovable_local.
  - intros ops. unfold removeRemoteEndpointOps. cbn [negb].
    destruct (FindOne _ _ _) as [svc|err].
    + intros [= <-]. left. by eexists _, _.
    + destruct (isMgoErrNotFound err); [|done].
      intros [= <-]. right. eexists _, _.
      split; [done|]. split; [done|]. split; [done|].
      apply notRemovable_remote.
Qed.

(** ** Settings cleanup *)

Lemma matches_id_regex id (d : D) (re : string) :
  matches (settingsFields id d) [("_id", VDoc [("$regex", VStr re)])] =
  regexMatch re id.
Proof. by autorewrite with cond. Qed.

Lemma FindAllIds_regex db (re : string) :
  fault db = None →
  ∃ ids,
    FindAllIds db [("_id", VDoc [("$regex", VStr re)])] = Ok ids ∧
    NoDup ids ∧
    ∀ id, id ∈ ids ↔ is_Some (settings db !! id) ∧ regexMatch re id = true.
Proof.
  intros Hf. unfold FindAllIds. rewrite Hf. eexists. split; [done|]. split.
  - apply NoDup_fmap_fst.
    + intros id d1 d2 [Hin1 _]%list_elem_of_In%filter_In
        [Hin2 _]%list_elem_of_In%filter_In.
      apply list_elem_of_In, elem_of_map_to_list in Hin1, Hin2. congruence.
    + apply NoDup_ListNoDup, List.NoDup_filter, NoDup_ListNoDup,
        NoDup_map_to_list.
  - intros id. rewrite list_elem_of_fmap. split.
    + intros ([id' d] & -> & [Hin Hm]%list_elem_of_In%filter_In).
      apply list_elem_of_In, elem_of_map_to_list in Hin.
      cbn [fst snd] in *. rewrite matches_id_regex in Hm. eauto.
    + intros [[d Hd] Hm]. exists (id, d). split; [done|].
      apply list_elem_of_In, filter_In. split.
      * by apply list_elem_of_In, elem_of_map_to_list.
      * cbn [fst snd]. by rewrite matches_id_regex.
Qed.

Lemma lookup_deleteAll ids m k :
  deleteAll ids m !! k = if decide (k ∈ ids) then None else m !! k.
Proof.
  unfold deleteAll. revert m.
  induction ids as [|id ids IH]; intros m; cbn [fold_left].
  - by rewrite decide_False by apply not_elem_of_nil.
  - rewrite IH. destruct (decide (k = id)) as [->|Hne].
    + rewrite lookup_delete_eq.
      rewrite (decide_True (P := id ∈ id :: ids)) by apply list_elem_of_here.
      by destruct (decide (id ∈ ids)).
    + rewrite lookup_delete_ne by done.
      destruct (decide (k ∈ ids)) as [Hin|Hnin].
      * by rewrite decide_True by (by apply list_elem_of_further).
      * rewrite decide_False; [done|].
        by intros [?|?]%elem_of_cons.
Qed.

Lemma applyOps_remove_settings ids db :
  applyOps db
    (map (λ id, {| C := settingsC; Id := IdStr id; Assert := None;
                   Insert := None; Update := None; Remove := true |}) ids)
  = Some (setSettings (deleteAll ids) db).
Proof.
  unfold applyOps.
  assert (forallb (assertHolds db)
            (map (λ id, {| C := settingsC; Id := IdStr id; Assert := None;
                           Insert := None; Update := None; Remove := true |})
               ids) = true) as ->.
  { apply forallb_forall. by intros op (id & <- & _)%in_map_iff. }
  f_equal. unfold deleteAll. revert db.
  induction ids as [|id ids IH]; intros db; cbn [map fold_left].
  - by destruct db.
  - rewrite IH. reflexivity.
Qed.

(** C9. On a store that answers the query, [Prepare] returns the
    already-complete signal exactly when no settings document's id matches
    the prefix pattern; otherwise it returns one remove operation for each
    matching document and nothing else.  Committing those operations
    always succeeds and deletes exactly the matching documents, after
    which [Prepare] returns already-complete. *)
Theorem Prepare_removes_exactly_the_matched
    (change : relationSettingsCleanupChange) (db : Database) :
  fault db = None →
  let matched (id : string) :=
    is_Some (settings db !! id) ∧
    regexMatch ("^" +:+ Prefix change) id = true in
  let removeOp (id : string) :=
    {| C := settingsC; Id := IdStr id; Assert := None; Insert := None;
       Update := None; Remove := true |} in
  (Prepare change db = Err ErrChangeComplete ↔ ∀ id, ¬ matched id) ∧
  ((∃ id, matched id) →
   ∃ ids db',
     Prepare change db = Ok (map removeOp ids) ∧
     NoDup ids ∧ (∀ id, id ∈ ids ↔ matched id) ∧
     applyOps db (map removeOp ids) = Some db' ∧
     db' = setSettings (deleteAll ids) db ∧
     (∀ id, settings db' !! id =
            if decide (id ∈ ids) then None else settings db !! id) ∧
     Prepare change db' = Err ErrChangeComplete).
Proof.
  intros Hf matched removeOp. subst matched removeOp. cbv beta.
  destruct (FindAllIds_regex db ("^" +:+ Prefix change) Hf)
    as (ids & Hfind & Hnd & Hids).
  assert (∀ db0 ids0,
            FindAllIds db0
              [("_id", VDoc [("$regex", VStr ("^" +:+ Prefix change))])]
              = Ok ids0 →
            Prepare change db0 =
              if bool_decide (length ids0 = 0%nat) then Err ErrChangeComplete
              else Ok (map (λ id, {| C := settingsC; Id := IdStr id;
                                     Assert := None; Insert := None;
                                     Update := None; Remove := true |})
                         ids0)) as Hprep.
  { intros db0 ids0 H0. unfold Prepare. by rewrite H0. }
  split.
  - rewrite (Hprep _ _ Hfind). case_bool_decide as Hlen.
    + split; [|done]. intros _ id Hm. apply Hids in Hm.
      apply length_zero_iff_nil in Hlen. subst ids.
      by apply not_elem_of_nil in Hm.
    + split; [done|]. intros Hno. exfalso. apply Hlen.
      destruct ids as [|id ids]; [done|].
      destruct (Hno id). apply Hids, list_elem_of_here.
  - intros [id0 Hm0]. exists ids, (setSettings (deleteAll ids) db).
    split.
    { rewrite (Hprep _ _ Hfind). rewrite bool_decide_eq_false_2; [done|].
      intros Hlen%length_zero_iff_nil. subst ids.
      apply Hids in Hm0. by apply not_elem_of_nil in Hm0. }
    split; [done|]. split; [done|].
    split; [apply applyOps_remove_settings|]. split; [done|].
    split; [intros id; apply lookup_deleteAll|].
    destruct (FindAllIds_regex (setSettings (deleteAll ids) db)
                ("^" +:+ Prefix change) Hf) as (ids' & Hfind' & _ & Hids').
    rewrite (Hprep _ _ Hfind').
    rewrite bool_decide_eq_true_2; [done|].
    destruct ids' as [|id' ids']; [done|]. exfalso.
    destruct (Hids' id') as [[Hsome Hre] _]; [apply list_elem_of_here|].
    cbn [settings setSettings] in Hsome. rewrite lookup_deleteAll in Hsome.
    destruct (decide (id' ∈ ids)) as [Hin|Hnin]; [by destruct Hsome|].
    apply Hnin, Hids. done.
Qed.

End Properties.

(** * The properties on the sample deployment *)

Section OnSample.
Import Sample.

(** The scenario of the specification: with units in scope [Destroy] only
    marks the relation Dying; with none it removes the document, decrements
    both applications and enqueues one settings cleanup. *)
Example Destroy_with_units_marks_dying :
  Destroy (txnRun 3) (relWM Alive 2) (dbWM Alive 2) =
    (None, relWM Dying 2, dbWM Dying 2).
Proof. vm_compute. reflexivity. Qed.

Example Destroy_without_units_removes :
  Destroy (txnRun 3) (relWM Alive 0) (dbWM Alive 0) =
    (None, relWM Dying 0, dbRemoved).
Proof. vm_compute. reflexivity. Qed.

(** A stale snapshot: the first attempt aborts, the second refreshes and
    commits the removal; the caller's snapshot keeps its unit count. *)
Example Destroy_retries_on_stale_snapshot :
  Destroy (txnRun 3) (relWM Alive 2) (dbWM Alive 0) =
    (None, relWM Dying 2, dbRemoved).
Proof. vm_compute. reflexivity. Qed.

Lemma sample_removals_enqueue_nothing c : inlinedRemovalsDoNotEnqueue c.
Proof.
  split.
  - intros db d asserts ops [= <-].
    repeat constructor; apply bool_decide_eq_false_2; by intros [? _].
  - intros d asserts.
    repeat constructor; apply bool_decide_eq_false_2; by intros [? _].
Qed.

Lemma removeOps_self_removal_and_cleanup_witness :
  (length (List.filter (enqueuesCleanup settingsCleanupWM) removalOpsWM)
     = 1%nat ∧
   destroyOps (relWM Alive 0) (dbWM Alive 0) "" = Ok (removalOpsWM, true)) ∧
  length (List.filter (enqueuesCleanup settingsCleanupWM) departureOpsWM)
    = 1%nat.
Proof.
  split.
  - destruct (removeOps_self_removal_and_cleanup
                (relWM Alive 0) (dbWM Alive 0) "" "" removalOpsWM)
      as [Hnone _]; [vm_compute; reflexivity|].
    destruct (Hnone eq_refl) as (_ & Hcount & Hdestroy).
    split; [exact Hcount | apply Hdestroy; reflexivity].
  - destruct (removeOps_self_removal_and_cleanup
                (relWM Dying 1) dbLastRef "" "wordpress/0" departureOpsWM)
      as [_ Hdeparting]; [vm_compute; reflexivity|].
    destruct Hdeparting as [_ Hcount]; [done|].
    apply Hcount, sample_removals_enqueue_nothing.
Defined.

Lemma destroyOps_units_in_scope_witness :
  destroyOps (relWM Alive 2) (dbWM Alive 2) "" =
    Ok ([ {| C := relationsC; Id := IdStr ("m:" +:+ relKeyWM);
             Assert := Some [("life", VLife Alive);
                             ("unitcount", VDoc [("$gt", VInt 0)])];
             Insert := None;
             Update := Some [("$set", VDoc [("life", VLife Dying)])];
             Remove := false |} ], false).
Proof.
  apply (destroyOps_units_in_scope (relWM Alive 2) (dbWM Alive 2) "").
  - reflexivity.
  - cbn. lia.
Defined.

(** C3 as stated fails on a Dying peer relation: [destroyOps] gives the
    already-dying signal, yet [Destroy] returns an error, on the first call
    and on the second. *)
Lemma Destroy_dying_peer_errors :
  relLife (doc (relPeer Dying)) = Dying ∧
  destroyOps (relPeer Dying) dbPeer "" = Err errAlreadyDying ∧
  Destroy (txnRun 3) (relPeer Dying) dbPeer =
    (Some (Annotatef (Errorf "is a peer relation" [])
             "cannot destroy relation %q" ["riak:ring"]),
     relPeer Dying, dbPeer) ∧
  (Destroy (txnRun 3)
     (Destroy (txnRun 3) (relPeer Dying) dbPeer).1.2
     (Destroy (txnRun 3) (relPeer Dying) dbPeer).2).1.1 ≠ None.
Proof. repeat split; vm_compute; congruence. Qed.

Lemma Destroy_already_dying_is_noop_witness :
  Destroy (txnRun 3) (relWM Dying 1) (dbWM Dying 1) =
    (None, relWM Dying 1, dbWM Dying 1) ∧
  Destroy (txnRun 3) (relWM Dead 0) (dbWM Dead 0) =
    (None, relWM Dying 0, dbWM Dead 0).
Proof.
  split.
  - destruct (Destroy_already_dying_is_noop 3 (relWM Dying 1) (dbWM Dying 1))
      as [Hnoop _].
    destruct Hnoop as [_ Hd]; [done|]. apply Hd; [reflexivity | lia].
  - destruct (Destroy_already_dying_is_noop 3 (relWM Dead 0) (dbWM Dead 0))
      as [Hnoop _].
    destruct Hnoop as [_ Hd]; [done|]. apply Hd; [reflexivity | lia].
Defined.

(** C4 as stated fails on the decrement emitted after the removability
    query: its assertion holds of an Alive application whose
    [relationcount] is 0, and committing it on such a document leaves
    [relationcount] at -1. *)
Lemma notRemovableDecrement_unguarded :
  removeLocalEndpointOps (relWM Dying 1) (dbWM Dying 1) mysqlEp "wordpress/0"
    = Ok [notRemovableDecrement] ∧
  decrementsRelationCount notRemovableDecrement = true ∧
  ¬ guardsPositiveRelationCount notRemovableDecrement ∧
  removeLocalEndpointOps (relWM Dying 1) dbUnreferenced mysqlEp "wordpress/0"
    = Ok [notRemovableDecrement] ∧
  (db' ← applyOps dbUnreferenced [notRemovableDecrement];
   appRelationCount <$> applications db' !! "m:mysql") = Some (-1).
Proof.
  split; [vm_compute; reflexivity|]. split; [reflexivity|].
  split; [|split; vm_compute; reflexivity].
  intros (cond & Hcond & Hguard). injection Hcond as <-.
  destruct (Hguard (docFields (app "mysql" Alive 0 0))) as (n & Hn & Hpos).
  - vm_compute. reflexivity.
  - vm_compute in Hn. injection Hn as <-. lia.
Qed.

Lemma decrement_assertions_witness :
  (∃ op, removeLocalEndpointOps (relWM Alive 0) (dbWM Alive 0) mysqlEp ""
           = Ok [op] ∧
         decrementsRelationCount op = true ∧ guardsPositiveRelationCount op) ∧
  (∃ op, removeLocalEndpointOps (relWM Dying 1) (dbWM Dying 1) mysqlEp
           "mysql/0" = Ok [op] ∧
         decrementsRelationCount op = true ∧ guardsPositiveRelationCount op).
Proof.
  destruct (decrement_assertions (relWM Alive 0) (dbWM Alive 0) mysqlEp)
    as (Hfirst & _).
  destruct (decrement_assertions (relWM Dying 1) (dbWM Dying 1) mysqlEp)
    as (Hown & _).
  split.
  - apply Hfirst. by left.
  - apply Hown. right. reflexivity.
Defined.

Lemma endpoint_ops_inline_or_guarded_decrement_witness :
  removeLocalEndpointOps (relWM Dying 1) dbLastRef mysqlEp "wordpress/0" =
    removeApplication dbLastRef (app "mysql" Dying 0 1)
      [("life", VLife Dying); ("unitcount", VInt 0);
       ("relationcount", VInt 1)].
Proof.
  destruct (endpoint_ops_inline_or_guarded_decrement
              (relWM Dying 1) dbLastRef mysqlEp "wordpress/0")
    as (Hinline & _); [done|].
  apply (Hinline (app "mysql" Dying 0 1)).
  - reflexivity.
  - vm_compute. congruence.
  - vm_compute. reflexivity.
  - repeat split.
Defined.

Lemma Destroy_sole_peer_witness :
  Destroy (txnRun 3) (relPeer Alive) dbPeer =
    (Some (Annotatef (Errorf "is a peer relation" [])
             "cannot destroy relation %q" ["riak:ring"]),
     relPeer Alive, dbPeer).
Proof.
  apply (Destroy_sole_peer (txnRun 3) (relPeer Alive) dbPeer riakEp);
    reflexivity.
Defined.

Lemma Destroy_buildTxn_refreshes_after_first_attempt_witness :
  Destroy_buildTxn 1 (relWM Alive 2) (dbWM Alive 0) =
    (Ok removalOpsWM, relWM Alive 0) ∧
  Destroy_buildTxn 1 (relWM Alive 0) dbGone = (Ok [], relWM Alive 0) ∧
  Destroy (txnRun 2) (relWM Alive 0) dbGone = (None, relWM Dying 0, dbGone).
Proof.
  destruct (Destroy_buildTxn_refreshes_after_first_attempt
              (relWM Alive 2) (dbWM Alive 0)) as (_ & Hrefresh & _).
  destruct (Destroy_buildTxn_refreshes_after_first_attempt
              (relWM Alive 0) dbGone) as (_ & _ & Hgone & Hdestroy).
  split; [|split].
  - rewrite (Hrefresh 1%nat (doc (relWM Alive 0)));
      [vm_compute; reflexivity | lia | reflexivity | vm_compute; reflexivity
      | reflexivity].
  - eapply (Hgone 1%nat); [lia | vm_compute; reflexivity | reflexivity].
  - apply (Hdestroy 0%nat removalOpsWM);
      [reflexivity | reflexivity | vm_compute; reflexivity
      | vm_compute; reflexivity].
Defined.

Lemma Refresh_not_found_or_same_incarnation_witness :
  (∃ err, Refresh (relWM Alive 0) dbGone = (Some err, relWM Alive 0) ∧
          IsNotFound err = true) ∧
  (∃ err, Refresh (relWM Alive 0) dbRecreated = (Some err, relWM Alive 0) ∧
          IsNotFound err = true) ∧
  Refresh (relWM Alive 2) (dbWM Dying 1) = (None, relWM Dying 1).
Proof.
  split; [|split].
  - apply (Refresh_not_found_or_same_incarnation (relWM Alive 0) dbGone);
      [reflexivity|]. left. vm_compute. reflexivity.
  - apply (Refresh_not_found_or_same_incarnation (relWM Alive 0) dbRecreated);
      [reflexivity|]. right. eexists. split; [vm_compute; reflexivity|].
    cbn. lia.
  - apply (Refresh_not_found_or_same_incarnation (relWM Alive 2)
             (dbWM Dying 1)); [reflexivity | vm_compute | ]; reflexivity.
Defined.

Lemma Prepare_removes_exactly_the_matched_witness :
  ∃ ids db',
    Prepare (mkChange "r#7#") (dbWM Alive 0) =
      Ok (map (λ id, {| C := settingsC; Id := IdStr id; Assert := None;
                        Insert := None; Update := None; Remove := true |})
            ids) ∧
    applyOps (dbWM Alive 0)
      (map (λ id, {| C := settingsC; Id := IdStr id; Assert := None;
                     Insert := None; Update := None; Remove := true |}) ids)
      = Some db' ∧
    Prepare (mkChange "r#7#") db' = Err ErrChangeComplete.
Proof.
  destruct (Prepare_removes_exactly_the_matched (mkChange "r#7#")
              (dbWM Alive 0)) as [_ Hsome]; [reflexivity|].
  destruct Hsome as (ids & db' & Hprep & _ & _ & Happly & _ & _ & Hdone).
  - exists "r#7#provider#mysql/0". split; [|vm_compute; reflexivity].
    eexists. vm_compute. reflexivity.
  - exists ids, db'. split; [exact Hprep|]. split; [exact Happly | exact Hdone].
Defined.

Example Prepare_on_sample :
  Prepare (mkChange "r#7#") (dbWM Alive 0) =
    Ok (map (λ id, {| C := settingsC; Id := IdStr id; Assert := None;
                      Insert := None; Update := None; Remove := true |})
          ["r#7#requirer#wordpress/0"; "r#7#provider#mysql/0"]).
Proof. vm_compute. reflexivity. Qed.

(** The removal committed outright, and the relation already Dying. *)
Lemma Destroy_success_life_Dying_witness :
  (relLife (doc (relWM Dying 0)) = Dying ∧
   relWM Dying 0 = mkRelation (setLife Dying (doc (relWM Alive 0)))) ∧
  (relLife (doc (relWM Dying 1)) = Dying ∧
   relWM Dying 1 = mkRelation (setLife Dying (doc (relWM Dying 1)))).
Proof.
  split.
  - apply (Destroy_success_life_Dying (txnRun 3) (relWM Alive 0)
             (relWM Dying 0) (dbWM Alive 0) dbRemoved).
    vm_compute. reflexivity.
  - apply (Destroy_success_life_Dying (txnRun 3) (relWM Dying 1)
             (relWM Dying 1) (dbWM Dying 1) (dbWM Dying 1)).
    vm_compute. reflexivity.
Defined.

End OnSample.

(** * Endpoints and relation units *)

Section UnitProperties.
Context `{Externals}.
Variable counterpartRole : RelationRole → RelationRole.
Variable RemoteApplicationErr : Database → string → option error.

Lemma findEndpoint_Some name eps ep :
  findEndpoint name eps = Some ep ↔
  ∃ before after,
    eps = before ++ ep :: after ∧ ApplicationName ep = name ∧
    Forall (λ e, ApplicationName e ≠ name) before.
Proof.
  induction eps as [|e eps IH]; cbn [findEndpoint].
  - split; [done|]. intros (before & after & Heq & _).
    by destruct before.
  - case_bool_decide as He.
    + split.
      * intros [= <-]. exists [], eps. by repeat split.
      * intros (before & after & Heq & Hn & Hb).
        destruct before as [|b before]; cbn in Heq.
        -- by injection Heq as <- _.
        -- injection Heq as -> _. by apply Forall_cons_1 in Hb as [? _].
    + rewrite IH. split.
      * intros (before & after & -> & Hn & Hb).
        exists (e :: before), after. repeat split; [done|].
        by constructor.
      * intros (before & after & Heq & Hn & Hb).
        destruct before as [|b before]; cbn in Heq.
        -- injection Heq as <- _. done.
        -- injection Heq as <- ->. apply Forall_cons_1 in Hb as [_ Hb].
           by exists before, after.
Qed.

Lemma findEndpoint_None name eps :
  findEndpoint name eps = None ↔ Forall (λ e, ApplicationName e ≠ name) eps.
Proof.
  induction eps as [|e eps IH]; cbn [findEndpoint]; [done|].
  case_bool_decide as He.
  - split; [done|]. by intros [? _]%Forall_cons_1.
  - rewrite IH. split.
    + intros Hall. by constructor.
    + by intros [_ ?]%Forall_cons_1.
Qed.

(** X1. [Endpoint] returns the first endpoint of the named application,
    and an error exactly when no endpoint of the relation has that
    application name. *)
Theorem Endpoint_first_of_application (r : Relation) (name : string) :
  match Endpoint_ r name with
  | Ok ep =>
      ∃ before after,
        relEndpoints (doc r) = before ++ ep :: after ∧
        ApplicationName ep = name ∧
        Forall (λ e, ApplicationName e ≠ name) before
  | Err err =>
      Forall (λ e, ApplicationName e ≠ name) (relEndpoints (doc r)) ∧
      err = Errorf "application %q is not a member of %q" [name; String_ r]
  end.
Proof.
  unfold Endpoint_.
  destruct (findEndpoint name (relEndpoints (doc r))) as [ep|] eqn:Hfind.
  - by apply findEndpoint_Some.
  - split; [by apply findEndpoint_None | done].
Qed.

Lemma Endpoint_Ok_member r name ep :
  Endpoint_ r name = Ok ep →
  ep ∈ relEndpoints (doc r) ∧ ApplicationName ep = name.
Proof.
  intros Hep. unfold Endpoint_ in Hep.
  destruct (findEndpoint name (relEndpoints (doc r))) as [e|] eqn:Hfind;
    [|done].
  injection Hep as ->.
  apply findEndpoint_Some in Hfind as (before & after & -> & Hn & _).
  split; [|done]. apply elem_of_app. right. apply list_elem_of_here.
Qed.

Lemma Endpoint_of_unique_member r ep :
  NoDup (ApplicationName <$> relEndpoints (doc r)) →
  ep ∈ relEndpoints (doc r) →
  Endpoint_ r (ApplicationName ep) = Ok ep.
Proof.
  unfold Endpoint_. intros Hnd Hin.
  induction (relEndpoints (doc r)) as [|e eps IH]; cbn [findEndpoint].
  - by apply not_elem_of_nil in Hin.
  - cbn [fmap list_fmap] in Hnd. apply NoDup_cons in Hnd as [Hnotin Hnd].
    apply elem_of_cons in Hin as [-> | Hin].
    + by rewrite bool_decide_eq_true_2.
    + rewrite bool_decide_eq_false_2; [by apply IH|].
      intros Heq. apply Hnotin. rewrite Heq.
      by apply list_elem_of_fmap_2.
Qed.

Lemma elem_of_endpointsOfRole role eps ep :
  ep ∈ endpointsOfRole role eps ↔ ep ∈ eps ∧ Role ep = role.
Proof.
  induction eps as [|e eps IH]; cbn [endpointsOfRole].
  - split; [by intros ?%not_elem_of_nil | by intros [?%not_elem_of_nil _]].
  - case_bool_decide as He.
    + rewrite !elem_of_cons, IH. split.
      * intros [-> | [? ?]]; [by split; [left|] | by split; [right|]].
      * intros [[-> | ?] ?]; [by left | by right].
    + rewrite elem_of_cons, IH. split.
      * intros [? ?]. by split; [right|].
      * intros [[-> | ?] ?]; [done | by split].
Qed.

Lemma RelatedEndpoints_Ok_inv r name eps :
  RelatedEndpoints counterpartRole r name = Ok eps →
  ∃ local,
    Endpoint_ r name = Ok local ∧ eps ≠ [] ∧
    eps = endpointsOfRole (counterpartRole (Role local))
            (relEndpoints (doc r)).
Proof.
  unfold RelatedEndpoints.
  destruct (Endpoint_ r name) as [local|err]; [|done].
  destruct (endpointsOfRole _ _) as [|e eps0] eqn:Heps; [done|].
  intros [= <-]. by exists local.
Qed.

Lemma endpointsOfRole_sublist role eps : endpointsOfRole role eps `sublist_of` eps.
Proof.
  induction eps as [|e eps IH]; cbn [endpointsOfRole]; [constructor|].
  case_bool_decide; by constructor.
Qed.

(** X2. [RelatedEndpoints] succeeds exactly when the application is a
    member and some endpoint has the counterpart role of its endpoint; the
    result is then non-empty and holds, in the relation's order, exactly
    the endpoints of that role. *)
Theorem RelatedEndpoints_counterparts (r : Relation) (name : string) :
  match RelatedEndpoints counterpartRole r name with
  | Ok eps =>
      ∃ local,
        Endpoint_ r name = Ok local ∧ eps ≠ [] ∧
        eps `sublist_of` relEndpoints (doc r) ∧
        ∀ ep, ep ∈ eps ↔
              ep ∈ relEndpoints (doc r) ∧
              Role ep = counterpartRole (Role local)
  | Err err =>
      (Endpoint_ r name = Err err) ∨
      (∃ local,
         Endpoint_ r name = Ok local ∧
         Forall (λ ep, Role ep ≠ counterpartRole (Role local))
           (relEndpoints (doc r)))
  end.
Proof.
  unfold RelatedEndpoints.
  destruct (Endpoint_ r name) as [local|err]; [|by left].
  destruct (endpointsOfRole _ _) as [|e eps] eqn:Heps.
  - right. exists local. split; [done|].
    apply Forall_forall. intros ep Hin Hrole.
    assert (ep ∈ endpointsOfRole (counterpartRole (Role local))
                   (relEndpoints (doc r))) as Hep
      by by apply elem_of_endpointsOfRole.
    rewrite Heps in Hep. by apply not_elem_of_nil in Hep.
  - exists local. split; [done|]. split; [done|]. rewrite <- Heps. split.
    + apply endpointsOfRole_sublist.
    + intros ep. apply elem_of_endpointsOfRole.
Qed.

(** X3. When [counterpartRole] is an involution and the endpoints'
    application names are distinct, relatedness is symmetric: an endpoint
    related to an application has that application's endpoint among its
    own related endpoints. *)
Theorem RelatedEndpoints_symmetric (r : Relation) (name : string)
    (eps : list Endpoint) (other : Endpoint) :
  (∀ role, counterpartRole (counterpartRole role) = role) →
  NoDup (ApplicationName <$> relEndpoints (doc r)) →
  RelatedEndpoints counterpartRole r name = Ok eps →
  other ∈ eps →
  ∃ local eps',
    Endpoint_ r name = Ok local ∧
    RelatedEndpoints counterpartRole r (ApplicationName other) = Ok eps' ∧
    local ∈ eps'.
Proof.
  intros Hinv Hnd Hrel Hother.
  destruct (RelatedEndpoints_Ok_inv _ _ _ Hrel) as (local & Hlocal & _ & ->).
  apply elem_of_endpointsOfRole in Hother as [Hin Hrole].
  pose proof (Endpoint_of_unique_member r other Hnd Hin) as Hep.
  destruct (Endpoint_Ok_member _ _ _ Hlocal) as [Hlin _].
  assert (local ∈ endpointsOfRole (counterpartRole (Role other))
                    (relEndpoints (doc r))) as Hback.
  { apply elem_of_endpointsOfRole. split; [done|]. by rewrite Hrole, Hinv. }
  exists local. unfold RelatedEndpoints. rewrite Hep.
  destruct (endpointsOfRole (counterpartRole (Role other))
              (relEndpoints (doc r))) as [|e eps'].
  - by apply not_elem_of_nil in Hback.
  - by exists (e :: eps').
Qed.

(** ** Scopes *)

Lemma append_cons (x : ascii) (a b : string) :
  String x a +:+ b = String x (a +:+ b).
Proof. reflexivity. Qed.

Lemma append_nil (b : string) : "" +:+ b = b.
Proof. reflexivity. Qed.

Lemma append_assoc (a b c : string) : (a +:+ b) +:+ c = a +:+ (b +:+ c).
Proof.
  induction a as [|x a IH]; [done|]. rewrite !append_cons. by f_equal.
Qed.

Lemma hashFree_pretty_N_go (x : N) (s : string) :
  hashFree s = true → hashFree (pretty_N_go x s) = true.
Proof.
  revert s. induction (N.lt_wf_0 x) as [x _ IH]; intros s Hs.
  destruct (decide (x = 0)%N) as [->|Hx]; [by rewrite pretty_N_go_0|].
  rewrite pretty_N_go_step by lia. apply IH.
  - apply N.div_lt; lia.
  - cbn [hashFree]. rewrite Hs, andb_true_r.
    unfold pretty_N_char. by repeat case_match.
Qed.

Lemma hashFree_pretty_Z (z : Z) : hashFree (pretty z) = true.
Proof.
  assert (∀ p : positive, hashFree (pretty p) = true) as Hpos.
  { intros p. unfold pretty, pretty_positive, pretty, pretty_N.
    case_decide; [done|]. by apply hashFree_pretty_N_go. }
  destruct z as [|p|p]; [done | apply Hpos |].
  unfold pretty, pretty_Z. rewrite append_cons, append_nil.
  cbn [hashFree]. rewrite bool_decide_eq_false_2 by done. apply Hpos.
Qed.

(** Two hash-free strings followed by ['#'] that start the same string
    are equal. *)
Lemma hashFree_separated (a b x y : string) :
  hashFree a = true → hashFree b = true →
  a +:+ "#" +:+ x = b +:+ "#" +:+ y → a = b.
Proof.
  revert b. induction a as [|c a IH]; intros [|d b] Ha Hb Heq; [done|..];
    rewrite ?append_cons, ?append_nil in Heq; cbn [hashFree] in Ha, Hb.
  - injection Heq as <- _. by rewrite bool_decide_eq_true_2 in Hb.
  - injection Heq as -> _. by rewrite bool_decide_eq_true_2 in Ha.
  - injection Heq as -> Heq.
    apply andb_true_iff in Ha as [_ Ha]. apply andb_true_iff in Hb as [_ Hb].
    f_equal. by apply IH.
Qed.

Lemma unit_Ok_inv r u p i c ru :
  unit_ r u p i c = Ok ru →
  ∃ app,
    UnitApplication u = Some app ∧ Endpoint_ r app = Ok (endpoint ru) ∧
    ruRelation ru = r ∧ unitName ru = u ∧
    isPrincipal ru = i ∧ checkUnitLife ru = c ∧
    scope ru =
      if bool_decide (Scope (endpoint ru) = ScopeContainer)
      then globalScope r +:+ "#" +:+ (if bool_decide (p = "") then u else p)
      else globalScope r.
Proof.
  unfold unit_. destruct (UnitApplication u) as [app|] eqn:Happ; [|done].
  destruct (Endpoint_ r app) as [ep|] eqn:Hep; [|done].
  intros [= <-]. exists app. by repeat split.
Qed.

(** X4. A relation unit exists exactly for units whose name parses to an
    application that is a member of the relation; it carries the
    relation's first endpoint of that application and the unit's name. *)
Theorem unit_of_member_application (r : Relation) (u p : string)
    (i c : bool) :
  (∀ ru, unit_ r u p i c = Ok ru →
     endpoint ru ∈ relEndpoints (doc r) ∧
     UnitApplication u = Some (ApplicationName (endpoint ru)) ∧
     unitName ru = u ∧ ruRelation ru = r) ∧
  ((∃ ru, unit_ r u p i c = Ok ru) ↔
   ∃ ep, ep ∈ relEndpoints (doc r) ∧
         UnitApplication u = Some (ApplicationName ep)).
Proof.
  split.
  - intros ru (app & Happ & Hep & Hr & Hu & _)%unit_Ok_inv.
    apply Endpoint_Ok_member in Hep as [Hin <-]. done.
  - split.
    + intros [ru (app & Happ & Hep & _)%unit_Ok_inv].
      apply Endpoint_Ok_member in Hep as [Hin <-]. eauto.
    + intros (ep & Hin & Happ). unfold unit_, Endpoint_. rewrite Happ.
      destruct (findEndpoint (ApplicationName ep) (relEndpoints (doc r)))
        as [e|] eqn:Hfind; [by eexists|].
      apply findEndpoint_None in Hfind.
      rewrite Forall_forall in Hfind. by destruct (Hfind ep Hin).
Qed.

(** X5. In a container-scoped relation two units have the same scope
    exactly when they have the same container: the principal's name for a
    subordinate, the unit's own name otherwise.  So a subordinate shares
    the scope of its principal, and distinct principals never share one. *)
Theorem unit_scope_by_container (r : Relation) (u1 p1 u2 p2 : string)
    (i1 c1 i2 c2 : bool) (ru1 ru2 : RelationUnit) :
  unit_ r u1 p1 i1 c1 = Ok ru1 →
  unit_ r u2 p2 i2 c2 = Ok ru2 →
  Scope (endpoint ru1) = ScopeContainer →
  Scope (endpoint ru2) = ScopeContainer →
  (scope ru1 = scope ru2 ↔
   (if bool_decide (p1 = "") then u1 else p1) =
   (if bool_decide (p2 = "") then u2 else p2)).
Proof.
  intros (_ & _ & _ & _ & _ & _ & _ & Hs1)%unit_Ok_inv
         (_ & _ & _ & _ & _ & _ & _ & Hs2)%unit_Ok_inv Hc1 Hc2.
  rewrite Hs1, Hs2, Hc1, Hc2.
  rewrite !bool_decide_eq_true_2 by done. split.
  - intros Heq. by do 2 apply (inj (String.append _)) in Heq.
  - by intros ->.
Qed.

(** A global-scoped endpoint gives every unit the relation's global
    scope, whatever the unit and its principal. *)
Lemma unit_scope_global (r : Relation) (u p : string) (i c : bool)
    (ru : RelationUnit) :
  unit_ r u p i c = Ok ru →
  Scope (endpoint ru) = ScopeGlobal →
  scope ru = globalScope r.
Proof.
  intros (_ & _ & _ & _ & _ & _ & _ & Hs)%unit_Ok_inv Hg.
  rewrite Hs, Hg. by rewrite bool_decide_eq_false_2.
Qed.

(** X6. [RemoteUnit] fails on a unit whose application is not a remote
    application, with that lookup's error as cause; when it succeeds the
    relation unit is a principal whose life is not checked, and in a
    container-scoped relation its container is the unit itself. *)
Theorem RemoteUnit_principal_unchecked (r : Relation) (db : Database)
    (u : string) :
  (∀ app err,
     UnitApplication u = Some app →
     RemoteApplicationErr db app = Some err →
     RemoteUnit RemoteApplicationErr r db u = Err (Trace err) ∧
     Cause (Trace err) = Cause err) ∧
  (∀ ru,
     RemoteUnit RemoteApplicationErr r db u = Ok ru →
     isPrincipal ru = true ∧ checkUnitLife ru = false ∧
     (∃ app, UnitApplication u = Some app ∧
             RemoteApplicationErr db app = None ∧
             Endpoint_ r app = Ok (endpoint ru)) ∧
     (Scope (endpoint ru) = ScopeContainer →
      scope ru = globalScope r +:+ "#" +:+ u)).
Proof.
  split.
  - intros app err Happ Herr. unfold RemoteUnit. by rewrite Happ, Herr.
  - intros ru. unfold RemoteUnit.
    destruct (UnitApplication u) as [app|] eqn:Happ; [|done].
    destruct (RemoteApplicationErr db app) as [err|] eqn:Herr; [done|].
    intros (app' & Happ' & Hep & _ & _ & Hi & Hc & Hs)%unit_Ok_inv.
    rewrite Happ in Happ'. injection Happ' as <-.
    repeat split; [done | done | by exists app |].
    intros Hcont. by rewrite Hs, Hcont.
Qed.

(** X7. The settings cleanup that [removeOps] enqueues carries the
    relation's global scope followed by ['#'].  Every string made of a
    relation unit's scope followed by ['#'] starts with that prefix, and
    never with the prefix of a relation that has another [Id]. *)
Theorem cleanup_prefix_covers_own_scopes_only (r r' : Relation)
    (u p : string) (i c : bool) (ru : RelationUnit) :
  unit_ r u p i c = Ok ru →
  (∀ db ign dep ops,
     removeOps r db ign dep = Ok ops →
     last ops =
       Some (newCleanupOp cleanupRelationSettings (globalScope r +:+ "#"))) ∧
  (∀ suffix, ∃ rest,
     scope ru +:+ "#" +:+ suffix = (globalScope r +:+ "#") +:+ rest) ∧
  (relId (doc r') ≠ relId (doc r) →
   ∀ suffix rest,
     scope ru +:+ "#" +:+ suffix ≠ (globalScope r' +:+ "#") +:+ rest).
Proof.
  intros (_ & _ & _ & _ & _ & _ & _ & Hs)%unit_Ok_inv.
  split; [|split].
  - intros db ign dep ops (mid & -> & _)%removeOps_shape.
    rewrite app_comm_cons, last_snoc. unfold globalScope, newCleanupOp.
    by rewrite append_assoc.
  - intros suffix. rewrite Hs. case_bool_decide.
    + exists ((if bool_decide (p = "") then u else p) +:+ "#" +:+ suffix).
      by rewrite !append_assoc.
    + exists suffix. by rewrite !append_assoc.
  - intros Hid suffix rest Heq. apply Hid.
    apply (inj pretty). rewrite Hs in Heq. unfold globalScope in Heq.
    case_bool_decide; rewrite !append_assoc in Heq;
      apply (inj (String.append _)) in Heq;
      symmetry; eapply hashFree_separated; eauto using hashFree_pretty_Z.
Qed.

End UnitProperties.

(** * Further properties of refresh, removal and destruction *)

Section MoreProperties.
Context `{Externals}.

(** X8. [Refresh] never adopts another incarnation: whatever it returns,
    the snapshot's [Id] is the one it had.  On every error the snapshot is
    untouched, on success it is the stored document, and a failing store
    gives an annotated store error that is not a not-found error. *)
Theorem Refresh_keeps_incarnation (r r' : Relation) (db : Database)
    (e : option error) :
  Refresh r db = (e, r') →
  relId (doc r') = relId (doc r) ∧
  (e ≠ None → r' = r) ∧
  (e = None → relations db !! relDocID (doc r) = Some (doc r')) ∧
  (∀ msg, fault db = Some msg →
     e = Some (Annotatef (StoreError msg) "cannot refresh relation %v"
                 [String_ r]) ∧
     ∀ err, e = Some err → IsNotFound err = false).
Proof.
  unfold Refresh, FindId. destruct (fault db) as [msg|] eqn:Hf.
  - cbn [isMgoErrNotFound]. intros [= <- <-].
    split; [done|]. split; [done|]. split; [done|].
    intros msg' [= <-]. split; [done|]. intros err [= <-]. done.
  - destruct (relations db !! relDocID (doc r)) as [d|] eqn:Hd.
    + case_bool_decide as Hid.
      * intros [= <- <-]. by repeat split.
      * intros [= <- <-]. cbn [doc].
        split; [|split; [done|split; [done|done]]].
        destruct (decide (relId d = relId (doc r))) as [|Hne]; [done|].
        destruct Hid. congruence.
    + cbn [isMgoErrNotFound]. intros [= <- <-]. by repeat split.
Qed.

(** The decrement emitted for an endpoint when no unit departs. *)
Lemma removeEndpointsOps_no_departing_decrements r db ign eps :
  ∀ ops result,
    removeEndpointsOps r db ign "" eps ops = Ok result →
    ∃ mid,
      result = ops ++ mid ∧
      Forall2
        (λ ep op,
           (C op = applicationsC ∨ C op = remoteApplicationsC) ∧
           op = {| C := C op; Id := IdStr (docID (ApplicationName ep));
                   Assert := Some [("relationcount", VDoc [("$gt", VInt 0)]);
                                   ("life", VLife Alive)];
                   Insert := None;
                   Update :=
                     Some [("$inc", VDoc [("relationcount", VInt (-1))])];
                   Remove := false |})
        (filter (λ ep, ApplicationName ep ≠ ign) eps) mid.
Proof.
  induction eps as [|ep eps IH]; intros ops result; cbn [removeEndpointsOps].
  - intros [= <-]. exists []. split; [by rewrite app_nil_r | constructor].
  - case_bool_decide as Hign.
    + rewrite filter_cons_False by (intros Hne; by apply Hne). apply IH.
    + rewrite filter_cons_True by done.
      destruct (applicationByName db (ApplicationName ep)) as [app|];
        [|done].
      rewrite (bool_decide_eq_false_2 ("" ≠ "")) by (intros Hne; by apply Hne).
      rewrite removeRemoteEndpointOps_not_dying.
      rewrite removeLocalEndpointOps_no_departing.
      destruct (IsRemote app);
        intros (mid & -> & Hmid)%IH; eexists (_ :: mid);
        (split; [by rewrite <- app_assoc|]);
        (constructor; [|done]); split; [by right | done | by left | done].
Qed.

(** X9. With no departing unit, a successful [removeOps] returns the
    self-removal, then exactly one operation per endpoint whose
    application is not the ignored one, in the endpoints' order, then the
    settings cleanup.  Each of these operations decrements
    [relationcount] on that endpoint's application document (local or
    remote) and asserts [relationcount > 0] and [life == Alive]; nothing
    is emitted for the ignored application. *)
Theorem removeOps_one_decrement_per_endpoint (r : Relation) (db : Database)
    (ignoreService : string) (ops : list Op) :
  removeOps r db ignoreService "" = Ok ops →
  ∃ mid,
    ops =
      {| C := relationsC; Id := IdStr (relDocID (doc r));
         Assert := Some [("life", VLife Alive); ("unitcount", VInt 0)];
         Insert := None; Update := None; Remove := true |}
      :: mid ++
      [newCleanupOp cleanupRelationSettings
         ("r#" +:+ pretty (relId (doc r)) +:+ "#")] ∧
    length ops =
      (2 + length (filter (λ ep, ApplicationName ep ≠ ignoreService)
                     (relEndpoints (doc r))))%nat ∧
    Forall2
      (λ ep op,
         (C op = applicationsC ∨ C op = remoteApplicationsC) ∧
         Id op = IdStr (docID (ApplicationName ep)) ∧
         Assert op = Some [("relationcount", VDoc [("$gt", VInt 0)]);
                           ("life", VLife Alive)] ∧
         decrementsRelationCount op = true ∧
         Insert op = None ∧ Remove op = false)
      (filter (λ ep, ApplicationName ep ≠ ignoreService)
         (relEndpoints (doc r))) mid.
Proof.
  unfold removeOps.
  rewrite bool_decide_eq_false_2 by (intros Hne; by apply Hne).
  destruct (removeEndpointsOps _ _ _ _ _ _) as [res0|] eqn:Hloop; [|done].
  intros [= <-].
  apply removeEndpointsOps_no_departing_decrements in Hloop
    as (mid & -> & Hmid).
  exists mid. split; [by rewrite <- app_assoc|]. split.
  - rewrite length_app, length_app. cbn [length].
    apply Forall2_length in Hmid. lia.
  - eapply Forall2_impl; [exact Hmid|].
    intros ep op [Hc Hop]. rewrite Hop. cbn. by repeat split.
Qed.

(** X10. When [destroyOps] succeeds the snapshot is Alive, and its
    [isRemove] result is true exactly when the snapshot has no units in
    scope, which is exactly when the set removes the relation document. *)
Theorem destroyOps_isRemove (r : Relation) (db : Database)
    (ignoreService : string) (ops : list Op) (isRemove : bool) :
  destroyOps r db ignoreService = Ok (ops, isRemove) →
  relLife (doc r) = Alive ∧
  (isRemove = true ↔ relUnitCount (doc r) = 0) ∧
  (isRemove = true ↔
   ∃ op, op ∈ ops ∧ C op = relationsC ∧
         Id op = IdStr (relDocID (doc r)) ∧ Remove op = true).
Proof.
  unfold destroyOps. case_bool_decide as Hl; [done|].
  assert (relLife (doc r) = Alive) as Hal.
  { destruct (decide (relLife (doc r) = Alive)); [done | by destruct Hl]. }
  case_bool_decide as Hu.
  - destruct (removeOps r db ignoreService "") as [ops'|] eqn:Hrem; [|done].
    intros [= <- <-]. split; [done|]. split; [done|]. split; [|done].
    intros _. apply removeOps_shape in Hrem as (mid & -> & _).
    eexists. split; [apply list_elem_of_here|]. done.
  - intros [= <- <-]. split; [done|]. split; [done|]. split; [done|].
    intros (op & ->%list_elem_of_singleton & _ & _ & Hrm). done.
Qed.

(** X11. Whatever the transaction runner, an error from [Destroy] is the
    cause annotated with "cannot destroy relation" and the relation's key;
    the annotation keeps the cause's not-found status, and the caller's
    snapshot is left as it was. *)
Theorem Destroy_error_annotated
    (run : ∀ St : Type,
       (nat → St → Database → res (list Op) * St) →
       St → Database → option error * St * Database)
    (r r' : Relation) (db db' : Database) (err : error) :
  Destroy run r db = (Some err, r', db') →
  r' = r ∧
  ∃ cause,
    err = Annotatef cause "cannot destroy relation %q" [String_ r] ∧
    Cause err = Cause cause ∧ IsNotFound err = IsNotFound cause.
Proof.
  unfold Destroy. destruct (isSolePeer r).
  - intros [= <- <- _]. split; [done|]. by eexists.
  - destruct (run _ _ _ _) as [[[e|] rel'] db1]; [|done].
    intros [= <- <- _]. split; [done|]. by eexists.
Qed.

Lemma removeEndpointsOps_error_traced r db ign eps :
  ∀ ops err,
    removeEndpointsOps r db ign "" eps ops = Err err → ∃ e, err = Trace e.
Proof.
  induction eps as [|ep eps IH]; intros ops err; cbn [removeEndpointsOps];
    [done|].
  case_bool_decide; [apply IH|].
  destruct (applicationByName db (ApplicationName ep)) as [app|e];
    [|intros [= <-]; by eexists].
  rewrite (bool_decide_eq_false_2 ("" ≠ "")) by (intros Hne; by apply Hne).
  rewrite removeRemoteEndpointOps_not_dying.
  rewrite removeLocalEndpointOps_no_departing.
  destruct (IsRemote app); apply IH.
Qed.

Lemma Destroy_buildOps_no_operations rel db :
  Destroy_buildOps rel db ≠ Err errAlreadyDying ∧
  (Destroy_buildOps rel db = Err ErrNoOperations ↔
   relLife (doc rel) ≠ Alive).
Proof.
  unfold Destroy_buildOps, destroyOps. case_bool_decide as Hl; [done|].
  assert (∀ A (x : res A), x ≠ x → False) as Habs by (intros ? ? Hx; by apply Hx).
  case_bool_decide as Hu.
  - unfold removeOps.
    destruct (removeEndpointsOps _ _ _ _ _ _) as [ops|e] eqn:Hloop.
    + split; [done|]. split; [done|]. intros Hne. by destruct Hl.
    + apply removeEndpointsOps_error_traced in Hloop as [e' ->].
      cbn [isErrAlreadyDying].
      split; [done|]. split; [done|]. intros Hne. by destruct Hl.
  - split; [done|]. split; [done|]. intros Hne. by destruct Hl.
Qed.

(** X12. The transaction builder of [Destroy] never lets the
    already-dying signal out; it reports "no operations" exactly when the
    snapshot it built from, the held one on the first attempt and the
    refreshed one later, is not Alive. *)
Theorem Destroy_buildTxn_no_operations (attempt : nat) (rel rel' : Relation)
    (db : Database) (result : res (list Op)) :
  Destroy_buildTxn attempt rel db = (result, rel') →
  result ≠ Err errAlreadyDying ∧
  (result = Err ErrNoOperations ↔
   relLife (doc rel') ≠ Alive ∧
   (attempt = 0%nat ∨ Refresh rel db = (None, rel'))).
Proof.
  unfold Destroy_buildTxn. case_bool_decide as Ha.
  - destruct (Refresh rel db) as [[err|] rel1] eqn:Href.
    + destruct (IsNotFound err) eqn:Hnf; intros [= <- <-].
      * split; [done|]. split; [done|]. intros [_ [? | ?]]; [lia | done].
      * split.
        -- intros [= ->]. unfold Refresh in Href.
           destruct (FindId _ _ _) as [d|e]; [by case_bool_decide|].
           by destruct (isMgoErrNotFound e).
        -- split.
           ++ intros [= ->]. unfold Refresh in Href.
              destruct (FindId _ _ _) as [d|e]; [by case_bool_decide|].
              by destruct (isMgoErrNotFound e).
           ++ intros [_ [? | ?]]; [lia | done].
    + intros [= <- <-].
      destruct (Destroy_buildOps_no_operations rel1 db) as [Hne Hiff].
      split; [done|]. rewrite Hiff. split; [by auto | by intros [? _]].
  - intros [= <- <-].
    destruct (Destroy_buildOps_no_operations rel db) as [Hne Hiff].
    split; [done|]. rewrite Hiff. split; [|by intros [? _]].
    intros Hl. split; [done|]. left. lia.
Qed.

(** ** Committing what [destroyOps] builds *)



Lemma applyChange_decrement_local db id op :
  decrementsApplication applicationsC id op →
  applyChange db op =
    setApplications
      (alter (applyUpdate [("$inc", VDoc [("relationcount", VInt (-1))])]) id)
      db.
Proof.
  intros (Hc & Hid & _ & Hrm & Hup & _). unfold applyChange, changeDoc.
  by rewrite Hc, Hid, Hrm, Hup.
Qed.

Lemma applyChange_decrement_remote db id op :
  decrementsApplication remoteApplicationsC id op →
  applyChange db op =
    setRemoteApplications
      (alter (applyUpdate [("$inc", VDoc [("relationcount", VInt (-1))])]) id)
      db.
Proof.
  intros (Hc & Hid & _ & Hrm & Hup & _). unfold applyChange, changeDoc.
  by rewrite Hc, Hid, Hrm, Hup.
Qed.

(** A run of decrements leaves relations, settings and cleanups alone,
    and an application document that none of them names. *)
Lemma fold_decrements_frame (mid : list Op) :
  Forall (λ op, ∃ c id,
            (c = applicationsC ∨ c = remoteApplicationsC) ∧
            decrementsApplication c id op) mid →
  ∀ db,
    relations (fold_left applyChange mid db) = relations db ∧
    settings (fold_left applyChange mid db) = settings db ∧
    cleanups (fold_left applyChange mid db) = cleanups db ∧
    (∀ id, Forall (λ op, ¬ decrementsApplication applicationsC id op) mid →
           applications (fold_left applyChange mid db) !! id =
           applications db !! id) ∧
    (∀ id,
       Forall (λ op, ¬ decrementsApplication remoteApplicationsC id op) mid →
       remoteApplications (fold_left applyChange mid db) !! id =
       remoteApplications db !! id).
Proof.
  induction 1 as [|op mid (c & id & Hc & Hop) _ IH]; intros db;
    cbn [fold_left]; [done|].
  destruct (IH (applyChange db op)) as (Hr & Hs & Hq & Ha & Hra).
  rewrite Hr, Hs, Hq.
  destruct Hc as [-> | ->].
  - rewrite (applyChange_decrement_local _ _ _ Hop) in *.
    repeat split; try done.
    + intros id' [Hne Hrest]%Forall_cons_1. rewrite Ha by done.
      cbn [applications setApplications]. apply lookup_alter_ne.
      intros <-. by apply Hne.
    + intros id' [_ Hrest]%Forall_cons_1. by rewrite Hra.
  - rewrite (applyChange_decrement_remote _ _ _ Hop) in *.
    repeat split; try done.
    + intros id' [_ Hrest]%Forall_cons_1. by rewrite Ha.
    + intros id' [Hne Hrest]%Forall_cons_1. rewrite Hra by done.
      cbn [remoteApplications setRemoteApplications]. apply lookup_alter_ne.
      intros <-. by apply Hne.
Qed.


Create Rewrite HintDb decrement.

#[local] Hint Rewrite matches_nil matches_cons elemHolds_gt elemHolds_life
  appFields_life appFields_relationcount rappFields_life
  rappFields_relationcount scalarEq_life compareGt_int andb_true_r
  : decrement.




#[local] Instance IdStr_inj : Inj (=) (=) IdStr.
Proof. by intros ?? [= ->]. Qed.


(** ** More on the settings cleanup *)

(** X14. [Prepare] never returns an empty operation set: with nothing to
    delete it signals already-complete instead.  What it returns are
    unconditional removals of stored settings documents, and on a failing
    store it returns the store's error, traced. *)
Theorem Prepare_never_empty (change : relationSettingsCleanupChange)
    (db : Database) :
  Prepare change db ≠ Ok [] ∧
  (∀ ops, Prepare change db = Ok ops →
     fault db = None ∧
     Forall (λ op, C op = settingsC ∧ Assert op = None ∧ Insert op = None ∧
                   Update op = None ∧ Remove op = true ∧
                   ∃ id, Id op = IdStr id ∧ is_Some (settings db !! id))
       ops) ∧
  (∀ msg, fault db = Some msg →
     Prepare change db = Err (Trace (StoreError msg))).
Proof.
  unfold Prepare, FindAllIds. destruct (fault db) as [msg|] eqn:Hf.
  - split; [done|]. split; [done|]. by intros msg' [= <-].
  - split; [|split; [|done]].
    + case_bool_decide as Hlen; [done|].
      intros [= Hnil]. apply Hlen.
      apply (f_equal length) in Hnil. by rewrite length_map in Hnil.
    + intros ops. case_bool_decide as Hlen; [done|]. intros [= <-].
      split; [done|]. apply Forall_forall.
      intros op (id & <- & Hin)%list_elem_of_In%in_map_iff.
      repeat split. exists id. split; [done|].
      apply list_elem_of_In, list_elem_of_fmap in Hin as ([id' d] & -> & Hin).
      apply list_elem_of_In, filter_In in Hin as [Hin _].
      apply list_elem_of_In, elem_of_map_to_list in Hin. by exists d.
Qed.

(** ** Failure and success of removal *)

Lemma applicationByName_known db name :
  fault db = None →
  ((∃ app, applicationByName db name = Ok app) ↔
   is_Some (applications db !! docID name) ∨
   is_Some (remoteApplications db !! docID name)) ∧
  (∀ err, applicationByName db name = Err err → IsNotFound err = true).
Proof.
  intros Hf. unfold applicationByName. rewrite !FindId_ok by done.
  destruct (remoteApplications db !! docID name) as [rd|].
  - split; [|done]. split; [intros _; right; by eexists | by eexists].
  - cbn [isMgoErrNotFound].
    destruct (applications db !! docID name) as [ad|].
    + split; [|done]. split; [intros _; left; by eexists | by eexists].
    + cbn [isMgoErrNotFound]. split.
      * split; [by intros [? ?] | by intros [[? ?] | [? ?]]].
      * by intros err [= <-].
Qed.

Lemma removeEndpointsOps_no_departing_fails r db ign eps :
  fault db = None →
  ∀ ops err,
    removeEndpointsOps r db ign "" eps ops = Err err →
    IsNotFound err = true ∧
    ∃ ep, ep ∈ eps ∧ ApplicationName ep ≠ ign ∧
          applications db !! docID (ApplicationName ep) = None ∧
          remoteApplications db !! docID (ApplicationName ep) = None.
Proof.
  intros Hf. induction eps as [|ep eps IH]; intros ops err;
    cbn [removeEndpointsOps]; [done|].
  assert (∀ ops',
            removeEndpointsOps r db ign "" eps ops' = Err err →
            IsNotFound err = true ∧
            ∃ ep', ep' ∈ ep :: eps ∧ ApplicationName ep' ≠ ign ∧
                   applications db !! docID (ApplicationName ep') = None ∧
                   remoteApplications db !! docID (ApplicationName ep') = None)
    as Hrest.
  { intros ops' (Hnf & ep' & Hin & Hrest)%IH. split; [done|].
    exists ep'. split; [by right | done]. }
  case_bool_decide as Hign; [apply Hrest|].
  destruct (applicationByName db (ApplicationName ep)) as [app|e] eqn:Happ.
  - rewrite (bool_decide_eq_false_2 ("" ≠ "")) by (intros Hne; by apply Hne).
    rewrite removeRemoteEndpointOps_not_dying.
    rewrite removeLocalEndpointOps_no_departing.
    destruct (IsRemote app); apply Hrest.
  - intros [= <-].
    destruct (applicationByName_known db (ApplicationName ep) Hf)
      as (Hknown & Hnf).
    split; [by apply (Hnf e)|].
    exists ep. split; [by left|]. split; [done|].
    destruct (applications db !! docID (ApplicationName ep)) eqn:Ha.
    { destruct Hknown as [_ [app Hok]]; [left; by eexists | congruence]. }
    destruct (remoteApplications db !! docID (ApplicationName ep)) eqn:Hra.
    { destruct Hknown as [_ [app Hok]]; [right; by eexists | congruence]. }
    done.
Qed.

(** X15. On a store that answers, [removeOps] with no departing unit
    succeeds exactly when the application of every endpoint is the
    ignored one or is stored, locally or remotely; when it fails the
    error is a not-found error. *)
Theorem removeOps_succeeds_iff_applications_known (r : Relation)
    (db : Database) (ignoreService : string) :
  fault db = None →
  ((∃ ops, removeOps r db ignoreService "" = Ok ops) ↔
   ∀ ep, ep ∈ relEndpoints (doc r) →
     ApplicationName ep = ignoreService ∨
     is_Some (applications db !! docID (ApplicationName ep)) ∨
     is_Some (remoteApplications db !! docID (ApplicationName ep))) ∧
  (∀ err, removeOps r db ignoreService "" = Err err →
          IsNotFound err = true).
Proof.
  intros Hf. split; [split|].
  - intros [ops Hops] ep Hin.
    destruct (decide (ApplicationName ep = ignoreService)) as [|Hne];
      [by left | right].
    unfold removeOps in Hops.
    destruct (removeEndpointsOps _ _ _ _ _ _) as [res0|] eqn:Hloop; [|done].
    clear Hops. revert Hloop.
    generalize [ {| C := relationsC; Id := IdStr (relDocID (doc r));
                    Assert := Some (if bool_decide ("" ≠ "")
                                    then [("life", VLife Dying);
                                          ("unitcount", VInt 1)]
                                    else [("life", VLife Alive);
                                          ("unitcount", VInt 0)]);
                    Insert := None; Update := None; Remove := true |} ].
    induction (relEndpoints (doc r)) as [|e eps IH]; intros acc;
      cbn [removeEndpointsOps]; [by apply not_elem_of_nil in Hin|].
    apply elem_of_cons in Hin as [<- | Hin].
    + rewrite bool_decide_eq_false_2 by done.
      destruct (applicationByName db (ApplicationName ep)) as [app|] eqn:Happ;
        [|done].
      intros _.
      destruct (applicationByName_known db (ApplicationName ep) Hf)
        as (Hknown & _).
      apply Hknown. by exists app.
    + case_bool_decide; [by apply IH|].
      destruct (applicationByName db (ApplicationName e)) as [app|]; [|done].
      destruct (IsRemote app).
      * destruct (removeRemoteEndpointOps _ _ _ _); [by apply IH | done].
      * destruct (removeLocalEndpointOps _ _ _ _); [by apply IH | done].
  - intros Hknown. unfold removeOps.
    destruct (removeEndpointsOps_no_departing_succeeds r db ignoreService
                (relEndpoints (doc r)) Hf Hknown
                [ {| C := relationsC; Id := IdStr (relDocID (doc r));
                     Assert := Some (if bool_decide ("" ≠ "")
                                     then [("life", VLife Dying);
                                           ("unitcount", VInt 1)]
                                     else [("life", VLife Alive);
                                           ("unitcount", VInt 0)]);
                     Insert := None; Update := None; Remove := true |} ])
      as [res0 ->].
    by eexists.
  - intros err. unfold removeOps.
    destruct (removeEndpointsOps _ _ _ _ _ _) as [res0|e] eqn:Hloop; [done|].
    intros [= <-].
    by apply removeEndpointsOps_no_departing_fails in Hloop as [? _].
Qed.

(** ** [Destroy] on a current snapshot *)

#[local] Hint Rewrite relFields_life relFields_unitcount elemHolds_int
  scalarEq_int : decrement.

(** X16. [Destroy] of a relation with units in scope: when the snapshot
    and the stored document are Alive with units in scope, the first
    attempt commits, the stored document becomes Dying and nothing else
    changes; no error is returned. *)
Theorem Destroy_marks_Dying_when_units_in_scope (budget : nat)
    (r : Relation) (db : Database) (d : relationDoc) :
  isSolePeer r = false →
  fault db = None →
  relLife (doc r) = Alive → relUnitCount (doc r) ≠ 0 →
  relations db !! relDocID (doc r) = Some d →
  relLife d = Alive → 0 < relUnitCount d →
  Destroy (txnRun (S budget)) r db =
    (None, mkRelation (setLife Dying (doc r)),
     setRelations (<[relDocID (doc r) := setLife Dying d]>) db).
Proof.
  intros Hp Hf Hl Hu Hd Hdl Hdu. unfold Destroy, txnRun. rewrite Hp.
  cbn [runLoop]. rewrite Destroy_buildTxn_first.
  unfold Destroy_buildOps, destroyOps. cbn [doc]. rewrite Hl.
  rewrite bool_decide_eq_false_2 by (intros Hne; by apply Hne).
  rewrite bool_decide_eq_false_2 by done.
  rewrite Hf. unfold applyOps, assertHolds, opFields.
  cbn [forallb Assert Id C fold_left]. rewrite Hd.
  cbn [fmap option_fmap option_map].
  rewrite matches_alive_units, !bool_decide_eq_true_2 by done. cbn [andb].
  unfold applyChange, changeDoc. cbn [Id C Remove Update].
  change (applyUpdate [("$set", VDoc [("life", VLife Dying)])])
    with (setLife Dying).
  unfold setRelations at 1. by rewrite (alter_lookup_insert _ _ _ d Hd).
Qed.

(** The endpoint loop on a store whose endpoint applications are all
    Alive and referenced: it succeeds and every assertion holds. *)
Lemma removeEndpointsOps_ready r db eps :
  fault db = None →
  (∀ ep, ep ∈ eps →
     ApplicationName ep = "" ∨
     (∃ a, remoteApplications db !! docID (ApplicationName ep) = Some a ∧
           rappLife a = Alive ∧ 0 < rappRelationCount a) ∨
     (remoteApplications db !! docID (ApplicationName ep) = None ∧
      ∃ a, applications db !! docID (ApplicationName ep) = Some a ∧
           appLife a = Alive ∧ 0 < appRelationCount a)) →
  ∀ ops, ∃ mid,
    removeEndpointsOps r db "" "" eps ops = Ok (ops ++ mid) ∧
    forallb (assertHolds db) mid = true ∧
    Forall (λ op, ∃ c id,
              (c = applicationsC ∨ c = remoteApplicationsC) ∧
              decrementsApplication c id op) mid.
Proof.
  intros Hf. induction eps as [|ep eps IH]; intros Hready ops;
    cbn [removeEndpointsOps].
  { exists []. by rewrite app_nil_r. }
  assert (∀ ops', ∃ mid,
            removeEndpointsOps r db "" "" eps ops' = Ok (ops' ++ mid) ∧
            forallb (assertHolds db) mid = true ∧
            Forall (λ op, ∃ c id,
                      (c = applicationsC ∨ c = remoteApplicationsC) ∧
                      decrementsApplication c id op) mid) as Hrest.
  { apply IH. intros ep' Hin. apply Hready. by right. }
  case_bool_decide as Hign; [apply Hrest|].
  rewrite (bool_decide_eq_false_2 ("" ≠ "")) by (intros Hne; by apply Hne).
  rewrite removeRemoteEndpointOps_not_dying.
  rewrite removeLocalEndpointOps_no_departing.
  unfold applicationByName. rewrite !FindId_ok by done.
  destruct (Hready ep) as [? | [(a & Ha & Hal & Hpos) | (Hnone & a & Ha & Hal & Hpos)]];
    [by left | done | |].
  - rewrite Ha. cbn [IsRemote].
    match goal with
    | |- context [removeEndpointsOps _ _ _ _ _ (ops ++ [?op])] =>
        destruct (Hrest (ops ++ [op])) as (mid & Hloop & Hass & Hdec);
        exists (op :: mid)
    end.
    rewrite Hloop, <- app_assoc. split; [done|]. split.
    + cbn [forallb]. rewrite Hass, andb_true_r.
      unfold assertHolds, opFields. cbn [Assert Id C]. rewrite Ha.
      cbn [fmap option_fmap option_map]. autorewrite with decrement.
      by rewrite !bool_decide_eq_true_2.
    + constructor; [|done]. eexists _, _. split; [by right|].
      by repeat split.
  - rewrite Hnone. cbn [isMgoErrNotFound]. rewrite Ha. cbn [IsRemote].
    match goal with
    | |- context [removeEndpointsOps _ _ _ _ _ (ops ++ [?op])] =>
        destruct (Hrest (ops ++ [op])) as (mid & Hloop & Hass & Hdec);
        exists (op :: mid)
    end.
    rewrite Hloop, <- app_assoc. split; [done|]. split.
    + cbn [forallb]. rewrite Hass, andb_true_r.
      unfold assertHolds, opFields. cbn [Assert Id C]. rewrite Ha.
      cbn [fmap option_fmap option_map]. autorewrite with decrement.
      by rewrite !bool_decide_eq_true_2.
    + constructor; [|done]. eexists _, _. split; [by left|].
      by repeat split.
Qed.

(** X17. [Destroy] of a relation with no units in scope: when the
    snapshot and the stored document are Alive without units and every
    endpoint's application document is Alive with a positive
    [relationcount], the first attempt commits; the relation document is
    gone from the store, one settings cleanup for the relation is
    enqueued, settings are untouched, and no error is returned. *)
Theorem Destroy_removes_when_no_units (budget : nat) (r : Relation)
    (db : Database) (d : relationDoc) :
  isSolePeer r = false →
  fault db = None →
  relLife (doc r) = Alive → relUnitCount (doc r) = 0 →
  relations db !! relDocID (doc r) = Some d →
  relLife d = Alive → relUnitCount d = 0 →
  (∀ ep, ep ∈ relEndpoints (doc r) →
     ApplicationName ep = "" ∨
     (∃ a, remoteApplications db !! docID (ApplicationName ep) = Some a ∧
           rappLife a = Alive ∧ 0 < rappRelationCount a) ∨
     (remoteApplications db !! docID (ApplicationName ep) = None ∧
      ∃ a, applications db !! docID (ApplicationName ep) = Some a ∧
           appLife a = Alive ∧ 0 < appRelationCount a)) →
  ∃ db',
    Destroy (txnRun (S budget)) r db =
      (None, mkRelation (setLife Dying (doc r)), db') ∧
    relations db' = delete (relDocID (doc r)) (relations db) ∧
    settings db' = settings db ∧
    cleanups db' =
      cleanups db ++
      [mkCleanupDoc cleanupRelationSettings
         ("r#" +:+ pretty (relId (doc r)) +:+ "#")].
Proof.
  intros Hp Hf Hl Hu Hd Hdl Hdu Hready.
  destruct r as [rd]. cbn [doc] in *.
  destruct (removeEndpointsOps_ready (mkRelation rd) db (relEndpoints rd)
              Hf Hready
              [ {| C := relationsC; Id := IdStr (relDocID rd);
                   Assert := Some [("life", VLife Alive);
                                   ("unitcount", VInt 0)];
                   Insert := None; Update := None; Remove := true |} ])
    as (mid & Hloop & Hass & Hdec).
  unfold Destroy, txnRun. rewrite Hp. cbn [runLoop].
  rewrite Destroy_buildTxn_first.
  unfold Destroy_buildOps, destroyOps, removeOps. cbn [doc]. rewrite Hl, Hu.
  rewrite bool_decide_eq_false_2 by (intros Hne; by apply Hne).
  rewrite bool_decide_eq_true_2 by done.
  rewrite (bool_decide_eq_false_2 ("" ≠ "")) by (intros Hne; by apply Hne).
  rewrite Hloop. cbn [app]. rewrite Hf.
  unfold applyOps. cbn [forallb]. rewrite forallb_app, Hass.
  cbn [forallb andb].
  assert (assertHolds db
            {| C := relationsC; Id := IdStr (relDocID rd);
               Assert := Some [("life", VLife Alive); ("unitcount", VInt 0)];
               Insert := None; Update := None; Remove := true |} = true)
    as ->.
  { unfold assertHolds, opFields. cbn [Assert Id C]. rewrite Hd.
    cbn [fmap option_fmap option_map]. autorewrite with decrement.
    by rewrite !bool_decide_eq_true_2. }
  cbn [andb]. eexists. split; [reflexivity|].
  cbn [fold_left]. rewrite fold_left_app. cbn [fold_left].
  set (db1 := applyChange db _).
  destruct (fold_decrements_frame mid Hdec db1) as (Hr & Hs & Hq & _).
  cbn [applyChange newCleanupOp Id C Insert relations settings cleanups
         setCleanups].
  by rewrite Hr, Hs, Hq.
Qed.

End MoreProperties.

(** * The further properties on the sample deployment *)

Section OnSampleUnits.
Import Sample SampleUnits.

Example RelatedEndpoints_on_sample :
  RelatedEndpoints counterpart (relWM Alive 0) "wordpress" = Ok [mysqlEp] ∧
  RelatedEndpoints counterpart (relPeer Alive) "riak" = Ok [riakEp] ∧
  RelatedEndpoints counterpart (relWM Alive 0) "riak" =
    Err (Errorf "application %q is not a member of %q"
           ["riak"; "wordpress:db mysql:server"]).
Proof. repeat split. Qed.

Lemma RelatedEndpoints_symmetric_witness :
  ∃ local eps',
    Endpoint_ (relWM Alive 0) "wordpress" = Ok local ∧
    RelatedEndpoints counterpart (relWM Alive 0) "mysql" = Ok eps' ∧
    local ∈ eps'.
Proof.
  apply (RelatedEndpoints_symmetric counterpart (relWM Alive 0) "wordpress"
           [mysqlEp] mysqlEp).
  - by intros [].
  - apply (bool_decide_unpack _). by vm_compute.
  - reflexivity.
  - apply list_elem_of_here.
Defined.

Lemma unit_scope_by_container_witness :
  scope (mkRelationUnit relLogging "logging/0" false true loggingEp
           "r#12#wordpress/0") =
  scope (mkRelationUnit relLogging "wordpress/0" true true wordpressInfoEp
           "r#12#wordpress/0").
Proof.
  apply (unit_scope_by_container relLogging
           "logging/0" "wordpress/0" "wordpress/0" ""
           false true true true).
  - vm_compute. reflexivity.
  - vm_compute. reflexivity.
  - reflexivity.
  - reflexivity.
  - reflexivity.
Defined.

Lemma cleanup_prefix_covers_own_scopes_only_witness :
  (∃ rest, "r#12#wordpress/0" +:+ "#" +:+ "requirer#logging/0" =
           (globalScope relLogging +:+ "#") +:+ rest) ∧
  "r#12#wordpress/0" +:+ "#" +:+ "requirer#logging/0" ≠
    (globalScope (relWM Alive 0) +:+ "#") +:+ "x".
Proof.
  destruct (cleanup_prefix_covers_own_scopes_only relLogging (relWM Alive 0)
              "logging/0" "wordpress/0" false true
              (mkRelationUnit relLogging "logging/0" false true loggingEp
                 "r#12#wordpress/0"))
    as (_ & Hown & Hother); [vm_compute; reflexivity|].
  split.
  - apply (Hown "requirer#logging/0").
  - apply (Hother ltac:(cbn; lia) "requirer#logging/0" "x").
Defined.

Lemma Refresh_keeps_incarnation_witness :
  relId (doc (relWM Dying 1)) = relId (doc (relWM Alive 2)) ∧
  relations (dbWM Dying 1) !! relDocID (doc (relWM Alive 2)) =
    Some (doc (relWM Dying 1)).
Proof.
  destruct (Refresh_keeps_incarnation (relWM Alive 2) (relWM Dying 1)
              (dbWM Dying 1) None) as (Hid & _ & Hdoc & _);
    [vm_compute; reflexivity|].
  split; [exact Hid | by apply Hdoc].
Defined.

Lemma removeOps_one_decrement_per_endpoint_witness :
  length removalOpsWM =
    (2 + length (filter (λ ep, ApplicationName ep ≠ "")
                   (relEndpoints (doc (relWM Alive 0)))))%nat.
Proof.
  destruct (removeOps_one_decrement_per_endpoint (relWM Alive 0)
              (dbWM Alive 0) "" removalOpsWM) as (mid & _ & Hlen & _);
    [vm_compute; reflexivity|].
  exact Hlen.
Defined.

Lemma destroyOps_isRemove_witness :
  relLife (doc (relWM Alive 0)) = Alive ∧
  (true = true ↔ relUnitCount (doc (relWM Alive 0)) = 0).
Proof.
  destruct (destroyOps_isRemove (relWM Alive 0) (dbWM Alive 0) ""
              removalOpsWM true) as (Hl & Hu & _);
    [vm_compute; reflexivity|].
  by split.
Defined.

Lemma Destroy_error_annotated_witness :
  ∃ cause,
    Annotatef (Errorf "is a peer relation" []) "cannot destroy relation %q"
      ["riak:ring"] =
    Annotatef cause "cannot destroy relation %q" [String_ (relPeer Alive)].
Proof.
  destruct (Destroy_error_annotated (txnRun 3) (relPeer Alive) (relPeer Alive)
              dbPeer dbPeer
              (Annotatef (Errorf "is a peer relation" [])
                 "cannot destroy relation %q" ["riak:ring"]))
    as (_ & cause & Herr & _); [vm_compute; reflexivity|].
  by exists cause.
Defined.

Lemma Destroy_buildTxn_no_operations_witness :
  (Err ErrNoOperations : res (list Op)) = Err ErrNoOperations ↔
  relLife (doc (relWM Dying 1)) ≠ Alive ∧
  (0%nat = 0%nat ∨
   Refresh (relWM Dying 1) (dbWM Dying 1) = (None, relWM Dying 1)).
Proof.
  destruct (Destroy_buildTxn_no_operations 0 (relWM Dying 1) (relWM Dying 1)
              (dbWM Dying 1) (Err ErrNoOperations)) as (_ & Hiff);
    [vm_compute; reflexivity|].
  exact Hiff.
Defined.


Lemma removeOps_succeeds_iff_applications_known_witness :
  ∃ ops, removeOps (relWM Alive 0) (dbWM Alive 0) "" "" = Ok ops.
Proof.
  destruct (removeOps_succeeds_iff_applications_known (relWM Alive 0)
              (dbWM Alive 0) "") as ([_ Hknown] & _); [reflexivity|].
  apply Hknown. intros ep Hin. right. left.
  apply elem_of_cons in Hin as [-> | Hin].
  { eexists. vm_compute. reflexivity. }
  apply list_elem_of_singleton in Hin as ->.
  eexists. vm_compute. reflexivity.
Defined.

Lemma Destroy_marks_Dying_when_units_in_scope_witness :
  Destroy (txnRun 1) (relWM Alive 2) (dbWM Alive 2) =
    (None, mkRelation (setLife Dying (doc (relWM Alive 2))),
     setRelations
       (<[relDocID (doc (relWM Alive 2))
            := setLife Dying (doc (relWM Alive 2))]>)
       (dbWM Alive 2)).
Proof.
  apply (Destroy_marks_Dying_when_units_in_scope 0 (relWM Alive 2)
           (dbWM Alive 2) (doc (relWM Alive 2))).
  - reflexivity.
  - reflexivity.
  - reflexivity.
  - cbn. lia.
  - vm_compute. reflexivity.
  - reflexivity.
  - cbn. lia.
Defined.

Lemma Destroy_removes_when_no_units_witness :
  ∃ db',
    Destroy (txnRun 1) (relWM Alive 0) (dbWM Alive 0) =
      (None, mkRelation (setLife Dying (doc (relWM Alive 0))), db') ∧
    relations db' =
      delete (relDocID (doc (relWM Alive 0))) (relations (dbWM Alive 0)) ∧
    settings db' = settings (dbWM Alive 0) ∧
    cleanups db' =
      cleanups (dbWM Alive 0) ++
      [mkCleanupDoc cleanupRelationSettings
         ("r#" +:+ pretty (relId (doc (relWM Alive 0))) +:+ "#")].
Proof.
  apply (Destroy_removes_when_no_units 0 (relWM Alive 0) (dbWM Alive 0)
           (doc (relWM Alive 0))).
  - reflexivity.
  - reflexivity.
  - reflexivity.
  - reflexivity.
  - vm_compute. reflexivity.
  - reflexivity.
  - reflexivity.
  - intros ep Hin. right. right.
    apply elem_of_cons in Hin as [-> | Hin].
    { split; [vm_compute; reflexivity|].
      exists (app "wordpress" Alive 1 1).
      split; [vm_compute; reflexivity|]. split; [reflexivity | cbn; lia]. }
    apply list_elem_of_singleton in Hin as ->.
    split; [vm_compute; reflexivity|].
    exists (app "mysql" Alive 1 1).
    split; [vm_compute; reflexivity|]. split; [reflexivity | cbn; lia].
Defined.

End OnSampleUnits.
